(** * IdempotKit: the idempotency engine, its fingerprint and its stores

  A shallow embedding of the TypeScript sources

  - [core/src/engine.ts]   (class [IdempotencyEngine]),
  - [core/src/errors.ts]   (the error classes),
  - [core/src/types.ts]    ([AuditEvent], [ExecuteOptions], [IdempotencyStore]),
  - [core/src/__tests__/mocks/memory-store.ts] (class [MemoryStore]),
  - [adapters/redis/src/index.ts] and [lua.ts] (class [RedisAdapter]),

  followed by the properties of the specification that are stated about
  them.  Definitions come first, then lemmas and theorems. *)

From Stdlib Require Import ZArith NArith List String Ascii Lia Bool.
From stdpp Require Import base option list gmap strings pretty sorting.

#[local] Set Warnings "-register-all".
Local Open Scope Z_scope.

(* ===================================================================== *)
(** * Part I.  Definitions                                                *)
(* ===================================================================== *)

(** ** JavaScript strings

  A JavaScript string is a sequence of UTF-16 code units.  Literals of the
  sources are ASCII and are written with [js]. *)

Module JsString.

Definition jsstring := list N.

Definition js (s : string) : jsstring :=
  map (fun a : ascii => N_of_ascii a) (list_ascii_of_string s).

(** [String.prototype.trim] removes WhiteSpace and LineTerminator code
    units (ECMA-262, 22.1.3.32) from both ends. *)
Definition isWhiteSpace (c : N) : bool :=
  ((9 <=? c) && (c <=? 13) || (c =? 32) || (c =? 160) || (c =? 5760)
   || ((8192 <=? c) && (c <=? 8202)) || (c =? 8232) || (c =? 8233)
   || (c =? 8239) || (c =? 8287) || (c =? 12288) || (c =? 65279))%N.

Fixpoint trimStart (s : jsstring) : jsstring :=
  match s with
  | c :: s' => if isWhiteSpace c then trimStart s' else s
  | [] => []
  end.

Definition trim (s : jsstring) : jsstring :=
  rev (trimStart (rev (trimStart s))).

(** Decimal text of an integer-valued number. *)
Definition Number_toString (n : Z) : jsstring := js (pretty n).

(** Comparison by code units, the order of [<] on strings. *)
Fixpoint codeUnitCompare (a b : jsstring) : Z :=
  match a, b with
  | [], [] => 0
  | [], _ :: _ => -1
  | _ :: _, [] => 1
  | x :: a', y :: b' =>
      if (x <? y)%N then -1
      else if (y <? x)%N then 1
      else codeUnitCompare a' b'
  end.

End JsString.
Export JsString.

(** ** Regular expressions

  The fragment of JavaScript regular expressions used by [_audit]:
  literal characters, [.], alternation, sequence and [?], matched with the
  [i] flag and without the [u] flag. *)

Module Regex.

Inductive regex : Type :=
| Eps
| Chr (c : N)
| Dot
| Alt (r1 r2 : regex)
| Seq (r1 r2 : regex)
| Opt (r : regex).

(** Canonicalize of ECMA-262 22.2.5.6 for [i] without [u]: a code unit is
    replaced by its upper case, except that a code unit at or above 128 is
    never mapped below 128.  The patterns of the sources hold ASCII letters
    only, so only the image of the ASCII range can meet a pattern
    character; the code units at or above 128 are kept as they are. *)
Definition canonicalize (c : N) : N :=
  if ((97 <=? c) && (c <=? 122))%N then (c - 32)%N else c.

(** [.] matches every code unit but the line terminators. *)
Definition isLineTerminator (c : N) : bool :=
  ((c =? 10) || (c =? 13) || (c =? 8232) || (c =? 8233))%N.

(** Declarative meaning: [Matches r w] when the whole of [w] is matched
    by [r]. *)
Inductive Matches : regex -> jsstring -> Prop :=
| MEps : Matches Eps []
| MChr c x : canonicalize x = canonicalize c -> Matches (Chr c) [x]
| MDot x : isLineTerminator x = false -> Matches Dot [x]
| MAltL r1 r2 w : Matches r1 w -> Matches (Alt r1 r2) w
| MAltR r1 r2 w : Matches r2 w -> Matches (Alt r1 r2) w
| MSeq r1 r2 w1 w2 : Matches r1 w1 -> Matches r2 w2 -> Matches (Seq r1 r2) (w1 ++ w2)
| MOptSome r w : Matches r w -> Matches (Opt r) w
| MOptNone r : Matches (Opt r) [].

(** The backtracking matcher: every remainder of [s] after a prefix
    matched by [r], in the order the engine tries them. *)
Fixpoint remainders (r : regex) (s : jsstring) : list jsstring :=
  match r with
  | Eps => [s]
  | Chr c =>
      match s with
      | x :: s' => if (canonicalize x =? canonicalize c)%N then [s'] else []
      | [] => []
      end
  | Dot =>
      match s with
      | x :: s' => if isLineTerminator x then [] else [s']
      | [] => []
      end
  | Alt r1 r2 => remainders r1 s ++ remainders r2 s
  | Seq r1 r2 => flat_map (remainders r2) (remainders r1 s)
  | Opt r' => remainders r' s ++ [s]
  end.

Definition matchesAt (r : regex) (s : jsstring) : bool :=
  match remainders r s with [] => false | _ :: _ => true end.

(** [s.match(r)] is not [null]: the pattern matches at some index. *)
Fixpoint test (r : regex) (s : jsstring) : bool :=
  matchesAt r s ||
  match s with
  | [] => false
  | _ :: s' => test r s'
  end.

Definition lit (s : string) : regex :=
  fold_right (fun c r => Seq (Chr c) r) Eps (js s).

(** [r] matches a substring of [s]. *)
Definition Occurs (r : regex) (s : jsstring) : Prop :=
  exists pre w post, s = pre ++ w ++ post /\ Matches r w.

End Regex.

(** ** JavaScript values and objects *)

Module Json.

(** The values a payload, a handler result or a metadata entry is made
    of.  Numbers are integer-valued.  The property list of an object is
    kept in the order in which the properties were created, each key once;
    the order in which the language enumerates them is computed by
    [ownEntries]. *)
Inductive value : Type :=
| VUndefined
| VNull
| VBool (b : bool)
| VNum (n : Z)
| VStr (s : jsstring)
| VArr (xs : list value)
| VObj (ps : list (jsstring * value)).

Section Entries.
Context {V : Type}.

Definition keys (ps : list (jsstring * V)) : list jsstring := map fst ps.

(** [Array.prototype.sort] with a comparator, as a stable insertion sort:
    [le a b] says that the comparator is not positive on [a], [b], and then
    [a] stays before [b].  For a comparator that is a consistent order
    every implementation of the stable sort gives this result. *)
Fixpoint insertBy (le : jsstring -> jsstring -> bool)
         (x : jsstring * V) (l : list (jsstring * V)) : list (jsstring * V) :=
  match l with
  | [] => [x]
  | y :: l' => if le (fst x) (fst y) then x :: y :: l' else y :: insertBy le x l'
  end.

Definition sortBy (le : jsstring -> jsstring -> bool)
           (l : list (jsstring * V)) : list (jsstring * V) :=
  fold_right (insertBy le) [] l.

(** [o[k] = v]: an existing property keeps its place, a new one is
    created last. *)
Fixpoint setProperty (k : jsstring) (v : V) (ps : list (jsstring * V))
  : list (jsstring * V) :=
  match ps with
  | [] => [(k, v)]
  | (k', v') :: ps' =>
      if decide (k' = k) then (k, v) :: ps' else (k', v') :: setProperty k v ps'
  end.

(** [Object.fromEntries] *)
Definition fromEntries (es : list (jsstring * V)) : list (jsstring * V) :=
  fold_left (fun o e => setProperty (fst e) (snd e) o) es [].

(** The order of [sortBy] on entries. *)
Definition entryLe (le : jsstring -> jsstring -> bool) (p q : jsstring * V) : Prop :=
  le (fst p) (fst q) = true.
End Entries.

(** A function applied to the value of an entry. *)
Definition onValues {V W : Type} (f : V -> W) (p : jsstring * V) : jsstring * W :=
  (fst p, f (snd p)).


(** An array index is the canonical decimal text of an integer in
    [0, 2^32 - 2] (ECMA-262, 6.1.7). *)
Definition isDigit (c : N) : bool := ((48 <=? c) && (c <=? 57))%N.

Definition digitsValue (s : jsstring) : N :=
  fold_left (fun acc c => (10 * acc + (c - 48))%N) s 0%N.

Definition arrayIndex (k : jsstring) : option N :=
  match k with
  | [] => None
  | c :: rest =>
      if forallb isDigit k
         && (negb (c =? 48)%N || match rest with [] => true | _ => false end)
         && (digitsValue k <=? 4294967294)%N
      then Some (digitsValue k) else None
  end.

Definition isArrayIndex (k : jsstring) : bool :=
  match arrayIndex k with Some _ => true | None => false end.

Definition indexLe (a b : jsstring) : bool :=
  (default 0%N (arrayIndex a) <=? default 0%N (arrayIndex b))%N.

(** OrdinaryOwnPropertyKeys: the array indices in ascending numeric
    order, then the other string keys in order of creation.  This is the
    order of [Object.entries] and of [JSON.stringify]. *)
Definition ownEntries {V : Type} (ps : list (jsstring * V)) : list (jsstring * V) :=
  sortBy indexLe (List.filter (fun p => isArrayIndex (fst p)) ps)
  ++ List.filter (fun p => negb (isArrayIndex (fst p))) ps.

(** QuoteJSONString *)
Definition hexDigit (n : N) : N := (if n <? 10 then 48 + n else 87 + n)%N.

Definition unicodeEscape (c : N) : jsstring :=
  js "\u" ++ [hexDigit (c / 4096 mod 16); hexDigit (c / 256 mod 16);
              hexDigit (c / 16 mod 16); hexDigit (c mod 16)]%N.

Definition isHighSurrogate (c : N) : bool := ((55296 <=? c) && (c <=? 56319))%N.
Definition isLowSurrogate (c : N) : bool := ((56320 <=? c) && (c <=? 57343))%N.

Definition escapeUnit (c : N) : jsstring :=
  if (c =? 8)%N then js "\b"
  else if (c =? 9)%N then js "\t"
  else if (c =? 10)%N then js "\n"
  else if (c =? 12)%N then js "\f"
  else if (c =? 13)%N then js "\r"
  else if (c =? 34)%N then [92; 34]%N
  else if (c =? 92)%N then [92; 92]%N
  else if (c <? 32)%N || isHighSurrogate c || isLowSurrogate c then unicodeEscape c
  else [c].

Fixpoint quoteBody (s : jsstring) : jsstring :=
  match s with
  | [] => []
  | c :: s' =>
      if isHighSurrogate c then
        match s' with
        | d :: s'' =>
            if isLowSurrogate d then c :: d :: quoteBody s''
            else unicodeEscape c ++ quoteBody s'
        | [] => unicodeEscape c
        end
      else escapeUnit c ++ quoteBody s'
  end.

Definition quote (s : jsstring) : jsstring := [34%N] ++ quoteBody s ++ [34%N].

Fixpoint join (sep : jsstring) (parts : list jsstring) : jsstring :=
  match parts with
  | [] => []
  | [p] => p
  | p :: ps => p ++ sep ++ join sep ps
  end.

(** [JSON.stringify(v)]; [None] is [undefined].  A property whose value
    has no JSON text is left out of an object and is [null] in an array.
    The texts of the property values are computed first and then
    enumerated with [ownEntries], which looks at the keys only;
    [stringify_VObj] below gives the equation in the order of the
    language. *)
Fixpoint stringify (v : value) : option jsstring :=
  match v with
  | VUndefined => None
  | VNull => Some (js "null")
  | VBool b => Some (js (if b then "true" else "false"))
  | VNum n => Some (Number_toString n)
  | VStr s => Some (quote s)
  | VArr xs =>
      Some (js "[" ++ join (js ",") (map (fun x => default (js "null") (stringify x)) xs)
               ++ js "]")
  | VObj ps =>
      Some (js "{"
               ++ join (js ",")
                    (omap (fun e : jsstring * option jsstring =>
                             match snd e with
                             | Some t => Some (quote (fst e) ++ js ":" ++ t)
                             | None => None
                             end)
                          (ownEntries (map (fun p => (fst p, stringify (snd p))) ps)))
               ++ js "}")
  end.

End Json.
Export Json.

(** ** Thrown values and the error classes of [errors.ts] *)

Module Errors.

Inductive ErrorClass : Type :=
| Error
| TypeError
| IdempotencyError
| InvalidIdempotencyKeyError
| FingerprintMismatchError
| OperationInProgressError
| LockAcquisitionError
| InvalidRetentionError
| onAuditRequiredError
| IdempotencyInternalError
| HandlerTimeoutError.

#[global] Instance ErrorClass_eq_dec : EqDecision ErrorClass.
Proof. solve_decision. Defined.

(** What a [throw] or a rejected promise carries: an error object, with
    the fields the classes of [errors.ts] give it, or any other value. *)
Inductive thrown : Type :=
| ErrorObject (class : ErrorClass) (name message : jsstring)
              (status : option Z) (code : option jsstring)
              (storedFingerprint : option jsstring) (cause : option thrown)
| Primitive (v : value).

Definition errClass (e : thrown) : option ErrorClass :=
  match e with ErrorObject c _ _ _ _ _ _ => Some c | Primitive _ => None end.
Definition errName (e : thrown) : option jsstring :=
  match e with ErrorObject _ n _ _ _ _ _ => Some n | Primitive _ => None end.
Definition errMessage (e : thrown) : option jsstring :=
  match e with ErrorObject _ _ m _ _ _ _ => Some m | Primitive _ => None end.
Definition errStoredFingerprint (e : thrown) : option jsstring :=
  match e with ErrorObject _ _ _ _ _ f _ => f | Primitive _ => None end.

Definition isIdempotencyClass (c : ErrorClass) : bool :=
  match c with Error | TypeError => false | _ => true end.

(** [e instanceof C] *)
Definition instanceOf (e : thrown) (C : ErrorClass) : bool :=
  match e with
  | ErrorObject c _ _ _ _ _ _ =>
      match C with
      | Error => true
      | IdempotencyError => isIdempotencyClass c
      | _ => bool_decide (c = C)
      end
  | Primitive _ => false
  end.

Definition new_Error (message : jsstring) : thrown :=
  ErrorObject Error (js "Error") message None None None None.

Definition new_TypeError (message : jsstring) : thrown :=
  ErrorObject TypeError (js "TypeError") message None None None None.

(** [constructor(message, status = 400, code?)] of the base class; the
    subclasses set [name] after calling it. *)
Definition new_IdempotencyError (message : jsstring) (status : option Z)
           (code : option jsstring) : thrown :=
  ErrorObject IdempotencyError (js "IdempotencyError") message
              (Some (default 400 status)) code None None.

Definition new_InvalidIdempotencyKeyError (message : option jsstring) : thrown :=
  ErrorObject InvalidIdempotencyKeyError (js "InvalidIdempotencyKeyError")
    (default (js "Idempotency key is required and must not be empty") message)
    (Some 400) (Some (js "IDEMPOTENCY_KEY_REQUIRED")) None None.

Definition new_FingerprintMismatchError (message : option jsstring)
           (storedFingerprint : option jsstring) : thrown :=
  ErrorObject FingerprintMismatchError (js "FingerprintMismatchError")
    (default
       (js "Fingerprint mismatch - request payload does not match previous execution")
       message)
    (Some 422) (Some (js "FINGERPRINT_MISMATCH")) storedFingerprint None.

Definition new_OperationInProgressError (message : option jsstring) : thrown :=
  ErrorObject OperationInProgressError (js "OperationInProgressError")
    (default (js "Operation with this idempotency key is already being processed")
             message)
    (Some 409) (Some (js "OPERATION_IN_PROGRESS")) None None.

Definition new_LockAcquisitionError (message : option jsstring) : thrown :=
  ErrorObject LockAcquisitionError (js "LockAcquisitionError")
    (default (js "Failed to acquire lock - please try again later") message)
    (Some 503) (Some (js "LOCK_ACQUISITION_FAILED")) None None.

Definition new_InvalidRetentionError (message : option jsstring) : thrown :=
  ErrorObject InvalidRetentionError (js "InvalidRetentionError")
    (default
       (js "Retention period must be at least 24 hours (86400000 ms) for compliance")
       message)
    (Some 400) (Some (js "INVALID_RETENTION_PERIOD")) None None.

Definition new_onAuditRequiredError (message : option jsstring) : thrown :=
  ErrorObject onAuditRequiredError (js "NoOnAuditError")
    (default (js "On Audit is required") message)
    (Some 400) (Some (js "ON-AUDIT_NOT_PASSED")) None None.

(** [if (originalError) this.cause = originalError] *)
Definition new_IdempotencyInternalError (message : option jsstring)
           (originalError : option thrown) : thrown :=
  ErrorObject IdempotencyInternalError (js "IdempotencyInternalError")
    (default (js "Internal idempotency error") message)
    (Some 500) (Some (js "INTERNAL_ERROR")) None originalError.

Definition new_HandlerTimeoutError (message : option jsstring) : thrown :=
  ErrorObject HandlerTimeoutError (js "HandlerTimeoutError")
    (default (js "Handler execution exceeded timeout") message)
    (Some 503) (Some (js "HANDLER_TIMEOUT")) None None.

(** [String(v)] for a value that is not an error object. *)
Fixpoint ToString (v : value) : jsstring :=
  match v with
  | VUndefined => js "undefined"
  | VNull => js "null"
  | VBool b => js (if b then "true" else "false")
  | VNum n => Number_toString n
  | VStr s => s
  | VArr xs =>
      join (js ",")
           (map (fun x => match x with
                          | VUndefined | VNull => []
                          | _ => ToString x
                          end) xs)
  | VObj _ => js "[object Object]"
  end.

(** How a statement or an awaited promise completes. *)
Inductive completion (T : Type) : Type :=
| Return (v : T)
| Throw (e : thrown).
Arguments Return {T} v.
Arguments Throw {T} e.

End Errors.
Export Errors.

(** ** [types.ts] *)

Module AuditEvent.

Inductive Action : Type :=
| hit
| miss
| acquired
| locked
| fingerprint_mismatch
| stored
| error
| timeout
| lock_released.

(** Timestamps are clock readings in milliseconds; their ISO 8601 text is
    not modelled. *)
Record t : Type := mk {
  timestamp : Z;
  key : jsstring;
  action : Action;
  fingerprint : option jsstring;
  storedFingerprint : option jsstring;
  metadata : option (list (jsstring * value))
}.

End AuditEvent.

(** An audit callback [(event) => void | Promise<void>].  What it does
    with the event is outside the program; it is identified by [sinkId]
    and either completes or fails with a thrown value. *)
Record Sink : Type := {
  sinkId : nat;
  sinkFails : AuditEvent.t -> option thrown
}.

Module EngineOptions.

Record t : Type := {
  lockTtl : Z;
  retention : Z;
  onAudit : option Sink;  (* [None]: not a function *)
  fingerprintAlgorithm : option jsstring;
  keyPrefix : option jsstring
}.

End EngineOptions.

Module ExecuteOptions.

Record t : Type := {
  onAudit : option Sink;
  handlerTimeout : option Z;
  retentionOverride : option Z;
  metadata : option (list (jsstring * value))
}.

End ExecuteOptions.

Module Types.

Inductive CheckResult : Type :=
| Exists (fingerprint : jsstring) (result : value) (createdAt : Z)
| Locked
| Acquired.

(** [interface IdempotencyStore].  [S] is the state of the key records,
    [A] the state of the audit persistence; every operation reads the
    clock ([now]).  The optional methods are [option]s. *)
Record IdempotencyStore (S A : Type) : Type := {
  atomicCheckAndLock :
    jsstring -> jsstring -> Z -> Z -> S -> completion CheckResult * S;
  commitResult :
    jsstring -> jsstring -> value -> Z -> Z -> S -> completion unit * S;
  releaseLock : option (jsstring -> S -> completion unit * S);
  recordAudit : option (AuditEvent.t -> A -> completion unit * A)
}.
Arguments atomicCheckAndLock {S A}.
Arguments commitResult {S A}.
Arguments releaseLock {S A}.
Arguments recordAudit {S A}.

(** What the promise returned by [handler()] does before the timer of
    [handlerTimeout] fires.  The handler is the caller's code: it is taken
    not to touch the store of the engine. *)
Inductive HandlerOutcome : Type :=
| Resolves (v : value)
| Rejects (e : thrown)
| Pending.

End Types.
Export Types.


(** ** The host runtime

    Two functions of the runtime are used by the engine and are not part of
    the sources: [String.prototype.localeCompare], whose order is defined by
    the host's collation, and [crypto.createHash(algorithm)], which gives for
    a supported algorithm the map from the text to its hex digest. *)

Class Host : Type := {
  localeCompare : jsstring -> jsstring -> Z;
  createHash : jsstring -> option (jsstring -> jsstring)
}.

(** ** Effects

    A call of the engine runs against a world: the key records and the
    audit persistence of the store, the events delivered to the audit
    callbacks (with the callback that received each), the number of times
    the handler was invoked, and the clock.  An effectful computation maps a
    world to a completion and a world. *)

Module Effects.

Record World (S A : Type) : Type := {
  records : S;
  auditLog : A;
  sinkCalls : list (nat * AuditEvent.t);
  recordAuditCalls : list AuditEvent.t;
  handlerCalls : nat;
  clock : Z
}.
Arguments records {S A}.
Arguments auditLog {S A}.
Arguments sinkCalls {S A}.
Arguments recordAuditCalls {S A}.
Arguments handlerCalls {S A}.
Arguments clock {S A}.

Definition Eff (S A T : Type) : Type := World S A -> completion T * World S A.

Section Monad.
Context {S A : Type}.

Definition ret {T} (v : T) : Eff S A T := fun w => (Return v, w).

Definition throw {T} (e : thrown) : Eff S A T := fun w => (Throw e, w).

Definition bind {T U} (m : Eff S A T) (k : T -> Eff S A U) : Eff S A U :=
  fun w =>
    match m w with
    | (Return v, w') => k v w'
    | (Throw e, w') => (Throw e, w')
    end.

(** [try { m } catch (err) { h err }] *)
Definition tryCatch {T} (m : Eff S A T) (h : thrown -> Eff S A T) : Eff S A T :=
  fun w =>
    match m w with
    | (Return v, w') => (Return v, w')
    | (Throw e, w') => h e w'
    end.

(** [try { m } finally { f }]: [f] runs however [m] completes; the
    completion of [m] stands unless [f] throws. *)
Definition tryFinally {T} (m : Eff S A T) (f : Eff S A unit) : Eff S A T :=
  fun w =>
    match m w with
    | (c, w') =>
        match f w' with
        | (Return _, w'') => (c, w'')
        | (Throw e, w'') => (Throw e, w'')
        end
    end.

(** [new Date()] *)
Definition now : Eff S A Z := fun w => (Return (clock w), w).

(** Run an operation of the store on the key records. *)
Definition onRecords {T} (op : Z -> S -> completion T * S) : Eff S A T :=
  fun w =>
    match op (clock w) (records w) with
    | (c, s') =>
        (c, {| records := s'; auditLog := auditLog w; sinkCalls := sinkCalls w;
               recordAuditCalls := recordAuditCalls w;
               handlerCalls := handlerCalls w; clock := clock w |})
    end.

(** [await store.recordAudit(event)]: the call is noted and runs on the
    audit persistence of the store. *)
Definition callRecordAudit (f : AuditEvent.t -> A -> completion unit * A)
           (event : AuditEvent.t) : Eff S A unit :=
  fun w =>
    match f event (auditLog w) with
    | (c, a') =>
        (c, {| records := records w; auditLog := a'; sinkCalls := sinkCalls w;
               recordAuditCalls := recordAuditCalls w ++ [event];
               handlerCalls := handlerCalls w; clock := clock w |})
    end.

(** [await Promise.resolve(auditor(event))]: the call is noted with the
    callback that received it. *)
Definition callSink (auditor : Sink) (event : AuditEvent.t) : Eff S A unit :=
  fun w =>
    (match sinkFails auditor event with
     | Some e => Throw e
     | None => Return tt
     end,
     {| records := records w; auditLog := auditLog w;
        sinkCalls := sinkCalls w ++ [(sinkId auditor, event)];
        recordAuditCalls := recordAuditCalls w;
        handlerCalls := handlerCalls w; clock := clock w |}).

(** [await Promise.race([handler(), <timer of handlerTimeout>])]: the
    handler is invoked once. *)
Definition raceHandler (handler : HandlerOutcome) (handlerTimeout : Z) : Eff S A value :=
  fun w =>
    (match handler with
     | Resolves v => Return v
     | Rejects e => Throw e
     | Pending =>
         Throw (new_HandlerTimeoutError
                  (Some (js "Handler timeout after " ++ Number_toString handlerTimeout
                            ++ js "ms")))
     end,
     {| records := records w; auditLog := auditLog w; sinkCalls := sinkCalls w;
        recordAuditCalls := recordAuditCalls w;
        handlerCalls := Datatypes.S (handlerCalls w); clock := clock w |}).

Definition sinkSucceeds (s : Sink) (e : AuditEvent.t) : bool :=
  match sinkFails s e with None => true | Some _ => false end.

(** What a computation adds to the calls of the audit callbacks, to the
    calls of [store.recordAudit], and to the invocations of the handler. *)
Definition emitted {T} (m : Eff S A T) (w : World S A) : list (nat * AuditEvent.t) :=
  drop (length (sinkCalls w)) (sinkCalls (snd (m w))).

Definition persisted {T} (m : Eff S A T) (w : World S A) : list AuditEvent.t :=
  drop (length (recordAuditCalls w)) (recordAuditCalls (snd (m w))).

Definition invocations {T} (m : Eff S A T) (w : World S A) : nat :=
  (handlerCalls (snd (m w)) - handlerCalls w)%nat.

Definition actions (l : list (nat * AuditEvent.t)) : list AuditEvent.Action :=
  map (fun c => AuditEvent.action (snd c)) l.

End Monad.

#[global] Instance Eff_ret {S A} : MRet (Eff S A) := @ret S A.
#[global] Instance Eff_bind {S A} : MBind (Eff S A) := fun T U k m => bind m k.

End Effects.
Export Effects.

(** ** [engine.ts] *)

Module IdempotencyEngine.

(** [this.options] after construction *)
Record Options : Type := {
  lockTtl : Z;
  retention : Z;
  onAudit : Sink;
  fingerprintAlgorithm : jsstring;
  keyPrefix : jsstring
}.

Record t (S A : Type) : Type := {
  store : IdempotencyStore S A;
  options : Options
}.
Arguments store {S A}.
Arguments options {S A}.

Definition enDash : jsstring := [8211%N].

(** [constructor(store, options)] *)
Definition new {S A} (store : IdempotencyStore S A) (options : EngineOptions.t)
  : completion (t S A) :=
  if (EngineOptions.lockTtl options <? 50) || (EngineOptions.lockTtl options >? 300000) then
    Throw (new_Error (js "lockTtl must be between 50ms and 5m (got "
                         ++ Number_toString (EngineOptions.lockTtl options) ++ js "ms)"))
  else if EngineOptions.retention options <? 86400000 then
    Throw (new_InvalidRetentionError
             (Some (js "retention must be at least 24 hours (86400000ms) for PCI-DSS compliance (got "
                       ++ Number_toString (EngineOptions.retention options) ++ js "ms)")))
  else
    match EngineOptions.onAudit options with
    | None =>
        Throw (new_Error
                 (js "onAudit is REQUIRED for compliance. Provide a function that writes to your audit system."
                     ++ [10%N]
                     ++ js "For development you can use: (e) => console.debug('[AUDIT]', e)"))
    | Some f =>
        Return {| store := store;
                  options := {| lockTtl := EngineOptions.lockTtl options;
                                retention := EngineOptions.retention options;
                                onAudit := f;
                                fingerprintAlgorithm :=
                                  default (js "sha256") (EngineOptions.fingerprintAlgorithm options);
                                keyPrefix := default [] (EngineOptions.keyPrefix options) |} |}
    end.

(** [/(password|token|secret|card|cvv|pin|ssn|full.?name|email|phone)/i] *)
Definition sensitivePattern : Regex.regex :=
  Regex.Alt (Regex.lit "password")
 (Regex.Alt (Regex.lit "token")
 (Regex.Alt (Regex.lit "secret")
 (Regex.Alt (Regex.lit "card")
 (Regex.Alt (Regex.lit "cvv")
 (Regex.Alt (Regex.lit "pin")
 (Regex.Alt (Regex.lit "ssn")
 (Regex.Alt (Regex.Seq (Regex.lit "full")
                       (Regex.Seq (Regex.Opt Regex.Dot) (Regex.lit "name")))
 (Regex.Alt (Regex.lit "email")
            (Regex.lit "phone"))))))))).

(** The [metadata] of [safeEvent]. *)
Definition redact (metadata : option (list (jsstring * value)))
  : option (list (jsstring * value)) :=
  match metadata with
  | Some md =>
      Some (fromEntries
              (List.filter (fun e => negb (Regex.test sensitivePattern (fst e)))
                           (ownEntries md)))
  | None => None
  end.

Definition safeEvent (event : AuditEvent.t) : AuditEvent.t :=
  {| AuditEvent.timestamp := AuditEvent.timestamp event;
     AuditEvent.key := AuditEvent.key event;
     AuditEvent.action := AuditEvent.action event;
     AuditEvent.fingerprint := AuditEvent.fingerprint event;
     AuditEvent.storedFingerprint := AuditEvent.storedFingerprint event;
     AuditEvent.metadata := redact (AuditEvent.metadata event) |}.

(** An event none of whose metadata keys has a substring matched by the
    pattern. *)
Definition redacted (event : AuditEvent.t) : Prop :=
  match AuditEvent.metadata event with
  | Some md => Forall (fun k => ~ Regex.Occurs sensitivePattern k) (keys md)
  | None => True
  end.

Section Methods.
Context {S A : Type} (this : t S A).

(** [await this.store.recordAudit?.(event)] *)
Definition store_recordAudit (event : AuditEvent.t) : Eff S A unit :=
  match recordAudit (store this) with
  | Some f => callRecordAudit f event
  | None => ret tt
  end.

(** [await this.store.releaseLock?.(fullKey)] *)
Definition store_releaseLock (fullKey : jsstring) : Eff S A unit :=
  match releaseLock (store this) with
  | Some f => onRecords (fun _ => f fullKey)
  | None => ret tt
  end.

(** [private async _audit(event, auditor)] *)
Definition _audit (event : AuditEvent.t) (auditor : Sink) : Eff S A unit :=
  tryCatch
    (callSink auditor (safeEvent event) ;;
     store_recordAudit (safeEvent event))
    (fun _ => ret tt).

(** [options?.onAudit ?? this.options.onAudit] *)
Definition activeSink (opts : option ExecuteOptions.t) : Sink :=
  default (onAudit (options this)) (opts ≫= ExecuteOptions.onAudit).

(** The [metadata] of the [error] and [timeout] events:
    [{...options?.metadata, error: ..., errorCode: ...}] *)
Definition failureMetadata (opts : option ExecuteOptions.t) (err : thrown)
  : list (jsstring * value) :=
  setProperty (js "errorCode")
    (if instanceOf err Error then
       match errName err with Some n => VStr n | None => VUndefined end
     else VUndefined)
    (setProperty (js "error")
       (VStr match err with
             | ErrorObject _ _ m _ _ _ _ => m
             | Primitive v => ToString v
             end)
       (fromEntries (ownEntries (default [] (opts ≫= ExecuteOptions.metadata))))).

(** [async execute(key, fingerprint, handler, options?)] *)
Definition execute (key fingerprint : jsstring) (handler : HandlerOutcome)
           (opts : option ExecuteOptions.t) : Eff S A value :=
  if match key with [] => true | _ => false end
     || (length (trim key) =? 0)%nat then
    throw (new_InvalidIdempotencyKeyError
             (Some (js "idempotency key must be a non-empty string (from Idempotency-Key header)")))
  else
    let fullKey := keyPrefix (options this) ++ trim key in
    let handlerTimeout := default 30000 (opts ≫= ExecuteOptions.handlerTimeout) in
    if (handlerTimeout <? 50) || (handlerTimeout >? 300000) then
      throw (new_Error (js "handlerTimeout must be 50ms" ++ enDash ++ js "5m (got "
                           ++ Number_toString handlerTimeout ++ js "ms)"))
    else
      let retentionMs := default (retention (options this)) (opts ≫= ExecuteOptions.retentionOverride) in
      if retentionMs <? 86400000 then
        throw (new_InvalidRetentionError
                 (Some (js "retentionOverride must be " ++ [8805%N] ++ js "24h (got "
                           ++ Number_toString retentionMs ++ js "ms)")))
      else
        checkResult ← onRecords (atomicCheckAndLock (store this) fullKey fingerprint
                                    (lockTtl (options this))) ;
        match checkResult with
        | Exists storedFp result _ =>
            if bool_decide (storedFp <> fingerprint) then
              ts ← now ;
              _audit (AuditEvent.mk ts fullKey AuditEvent.fingerprint_mismatch
                        (Some fingerprint) (Some storedFp) (opts ≫= ExecuteOptions.metadata))
                     (activeSink opts) ;;
              throw (new_FingerprintMismatchError
                       (Some (js "Fingerprint mismatch for key " ++ key ++ js " "
                                 ++ enDash
                                 ++ js " possible replay attack or key reuse with different payload"))
                       None)
            else
              ts ← now ;
              _audit (AuditEvent.mk ts fullKey AuditEvent.hit
                        (Some fingerprint) None (opts ≫= ExecuteOptions.metadata))
                     (activeSink opts) ;;
              ret result
        | Locked =>
            ts ← now ;
            _audit (AuditEvent.mk ts fullKey AuditEvent.locked
                      None None (opts ≫= ExecuteOptions.metadata))
                   (activeSink opts) ;;
            throw (new_OperationInProgressError
                     (Some (js "Operation for key " ++ key
                               ++ js " is already in progress (lock held by concurrent request)")))
        | Acquired =>
            ts ← now ;
            _audit (AuditEvent.mk ts fullKey AuditEvent.acquired
                      (Some fingerprint) None (opts ≫= ExecuteOptions.metadata))
                   (activeSink opts) ;;
            tryFinally
              (tryCatch
                 (result ← raceHandler handler handlerTimeout ;
                  onRecords (commitResult (store this) fullKey fingerprint result
                               retentionMs) ;;
                  ts ← now ;
                  _audit (AuditEvent.mk ts fullKey AuditEvent.stored
                            (Some fingerprint) None (opts ≫= ExecuteOptions.metadata))
                         (activeSink opts) ;;
                  ret result)
                 (fun err =>
                    ts ← now ;
                    _audit (AuditEvent.mk ts fullKey
                              (if instanceOf err HandlerTimeoutError
                               then AuditEvent.timeout else AuditEvent.error)
                              (Some fingerprint) None
                              (Some (failureMetadata opts err)))
                           (activeSink opts) ;;
                    throw err))
              (tryCatch
                 (store_releaseLock fullKey ;;
                  ts ← now ;
                  _audit (AuditEvent.mk ts fullKey AuditEvent.lock_released
                            None None (opts ≫= ExecuteOptions.metadata))
                         (activeSink opts))
                 (fun _ => ret tt))
        end.

End Methods.


Section Fingerprint.
Context {host : Host}.

(** The comparator of [.sort(([a], [b]) => a.localeCompare(b))]: [a] stays
    before [b] unless the comparator is positive. *)
Definition byLocale (a b : jsstring) : bool := localeCompare a b <=? 0.

(** [normalize].  The values are normalized before the entries are sorted,
    where the source sorts first: sorting and enumeration look at the keys
    only, and [normalize_VObj] below gives the equation in the order of the
    source. *)
Fixpoint normalize (v : value) : value :=
  match v with
  | VArr xs => VArr (map normalize xs)
  | VObj ps =>
      VObj (fromEntries
              (sortBy byLocale
                 (ownEntries (map (fun p => (fst p, normalize (snd p))) ps))))
  | _ => v
  end.

(** [fingerprint(data)] *)
Definition fingerprint {S A} (this : t S A) (data : value) : completion jsstring :=
  let normalized := stringify (normalize data) in
  match createHash (fingerprintAlgorithm (options this)) with
  | None => Throw (new_Error (js "Digest method not supported"))
  | Some digest =>
      match normalized with
      | Some text => Return (digest text)
      | None =>
          Throw (new_TypeError
                   (js "The " ++ [34%N] ++ js "data" ++ [34%N]
                       ++ js " argument must be of type string or an instance of Buffer, TypedArray, or DataView. Received undefined"))
      end
  end.

End Fingerprint.

End IdempotencyEngine.

(** ** [memory-store.ts]

    The timers that drop a lock after its TTL and a result after its
    retention are not modelled: no time passes between the operations. *)

Module MemoryStore.

Inductive Entry : Type :=
| Processing (lockAcquiredAt : Z) (lockTtlMs : Z)
| Committed (fingerprint : jsstring) (result : value) (createdAt : Z).

Definition atomicCheckAndLock (key providedFingerprint : jsstring) (lockTtlMs : Z)
           (now : Z) (store : gmap jsstring Entry)
  : completion CheckResult * gmap jsstring Entry :=
  match store !! key with
  | Some existing =>
      match existing with
      | Processing _ _ => (Return Locked, store)
      | Committed fp result createdAt => (Return (Exists fp result createdAt), store)
      end
  | None => (Return Acquired, <[key := Processing now lockTtlMs]> store)
  end.

Definition commitResult (key fingerprint : jsstring) (result : value)
           (retentionMs : Z) (now : Z) (store : gmap jsstring Entry)
  : completion unit * gmap jsstring Entry :=
  match store !! key with
  | Some (Processing _ _) =>
      (Return tt, <[key := Committed fingerprint result now]> store)
  | _ => (Throw (new_Error (js "Cannot commit: lock not held or expired")), store)
  end.

Definition releaseLock (key : jsstring) (store : gmap jsstring Entry)
  : completion unit * gmap jsstring Entry :=
  match store !! key with
  | Some (Processing _ _) => (Return tt, delete key store)
  | _ => (Return tt, store)
  end.

Definition recordAudit (event : AuditEvent.t) (auditLog : list AuditEvent.t)
  : completion unit * list AuditEvent.t :=
  (Return tt, auditLog ++ [event]).

Definition clear : gmap jsstring Entry * list AuditEvent.t := (∅, []).

Definition store : IdempotencyStore (gmap jsstring Entry) (list AuditEvent.t) :=
  {| Types.atomicCheckAndLock := atomicCheckAndLock;
     Types.commitResult := commitResult;
     Types.releaseLock := Some releaseLock;
     Types.recordAudit := Some recordAudit |}.

End MemoryStore.

(** ** The Redis adapter: [lua.ts] and [index.ts]

    A key of the database holds a string.  The scripts see it through
    [pcall(cjson.decode, stored)]: either the text does not decode to a
    table ([Undecodable]), or it is a table with the fields below, each
    possibly absent.  Expiry ([PX]) is not modelled, and a handler result is
    stored as it is. *)

Module RedisAdapter.

Inductive Stored : Type :=
| Undecodable (raw : jsstring)
| Table (status : option jsstring) (fingerprint : option jsstring)
        (result : option value) (createdAt : option Z) (lockAcquiredAt : option Z).

(** The server: its keys and, when it cannot be reached, the message of
    the error with which every command is rejected. *)
Record Redis : Type := {
  db : gmap jsstring Stored;
  unreachable : option jsstring
}.

(** [CHECK_AND_LOCK] *)
Definition CHECK_AND_LOCK (key : jsstring) (lock_ttl : Z) (now : Z)
           (db : gmap jsstring Stored) : CheckResult * gmap jsstring Stored :=
  match db !! key with
  | Some stored =>
      match stored with
      | Undecodable _ => (Acquired, db)
      | Table None _ _ _ _ => (Acquired, db)
      | Table (Some status) fp result createdAt _ =>
          if bool_decide (status = js "processing") then (Locked, db)
          else (Exists (default [] fp) (default VUndefined result) (default now createdAt),
                db)
      end
  | None =>
      (* [SET key lock_data PX lock_ttl NX] on an absent key *)
      (Acquired, <[key := Table (Some (js "processing")) None None None (Some now)]> db)
  end.

(** [COMMIT_RESULT]: [1] when the result was committed, else [0]. *)
Definition COMMIT_RESULT (key fingerprint : jsstring) (result : value)
           (retention_ms : Z) (now : Z) (db : gmap jsstring Stored)
  : Z * gmap jsstring Stored :=
  match db !! key with
  | None => (0, db)
  | Some (Undecodable _) => (0, db)
  | Some (Table status _ _ _ _) =>
      if bool_decide (status = Some (js "processing")) then
        (1, <[key := Table (Some (js "committed")) (Some fingerprint) (Some result)
                       (Some now) None]> db)
      else (0, db)
  end.

Definition storeError (errorMessage : jsstring) : thrown :=
  new_Error (js "Idempotency store error: " ++ errorMessage).

Definition atomicCheckAndLock (key fingerprint : jsstring) (lockTtlMs : Z)
           (now : Z) (redis : Redis) : completion CheckResult * Redis :=
  match unreachable redis with
  | Some errorMessage => (Throw (storeError errorMessage), redis)
  | None =>
      match CHECK_AND_LOCK key lockTtlMs now (db redis) with
      | (r, db') => (Return r, {| db := db'; unreachable := None |})
      end
  end.

Definition commitResult (key fingerprint : jsstring) (result : value)
           (retentionMs : Z) (now : Z) (redis : Redis) : completion unit * Redis :=
  match unreachable redis with
  | Some errorMessage => (Throw (storeError errorMessage), redis)
  | None =>
      match COMMIT_RESULT key fingerprint result retentionMs now (db redis) with
      | (success, db') =>
          (if success =? 0 then
             Throw (storeError
                      (js "Failed to commit result: lock expired or already committed"))
           else Return tt,
           {| db := db'; unreachable := None |})
      end
  end.

(** [await this.redis.unlink(key).catch(() => {})] *)
Definition releaseLock (key : jsstring) (redis : Redis) : completion unit * Redis :=
  match unreachable redis with
  | Some _ => (Return tt, redis)
  | None => (Return tt, {| db := delete key (db redis); unreachable := None |})
  end.

Definition store : IdempotencyStore Redis unit :=
  {| Types.atomicCheckAndLock := atomicCheckAndLock;
     Types.commitResult := commitResult;
     Types.releaseLock := Some releaseLock;
     Types.recordAudit := None |}.

End RedisAdapter.

(** ** Payloads that differ in the order of their keys *)

Module Payload.

(** [sameUpToKeyOrder p p']: [p'] is [p] with the properties of its
    objects, at any depth, created in another order.  Arrays keep the order
    of their elements. *)
Inductive sameUpToKeyOrder : value -> value -> Prop :=
| SameValue v : sameUpToKeyOrder v v
| SameArray xs ys :
    Forall2 sameUpToKeyOrder xs ys -> sameUpToKeyOrder (VArr xs) (VArr ys)
| SameObject ps qs rs :
    Forall2 (fun p q => fst p = fst q /\ sameUpToKeyOrder (snd p) (snd q)) ps qs ->
    Permutation qs rs ->
    sameUpToKeyOrder (VObj ps) (VObj rs).

(** The keys of an object are distinct, at every depth. *)
Fixpoint distinctKeys (v : value) : Prop :=
  match v with
  | VArr xs =>
      (fix each (l : list value) : Prop :=
         match l with
         | [] => True
         | x :: l' => distinctKeys x /\ each l'
         end) xs
  | VObj ps =>
      NoDup (keys ps)
      /\ (fix each (l : list (jsstring * value)) : Prop :=
            match l with
            | [] => True
            | p :: l' => distinctKeys (snd p) /\ each l'
            end) ps
  | _ => True
  end.




End Payload.
Export Payload.

(** ** Configurations used in the statements

    [withAudit] and [withCallSink] change nothing of an engine and of the
    options of a call but the audit callbacks and the audit persistence of
    the store.  [Scenario] holds the engine of [engine.test.ts] and the
    stores, callbacks and worlds at which statements are evaluated. *)

Module Variation.



End Variation.
Export Variation.

Module Scenario.

(** A callback that completes, and one that throws on every event. *)
Definition quietSink : Sink := {| sinkId := 0; sinkFails := fun _ => None |}.

Definition brokenSink : Sink :=
  {| sinkId := 1; sinkFails := fun _ => Some (new_Error (js "audit sink down")) |}.

(** [beforeEach] of [engine.test.ts] *)
Definition testOptions (sink : Sink) : IdempotencyEngine.Options :=
  {| IdempotencyEngine.lockTtl := 30000;
     IdempotencyEngine.retention := 86400000;
     IdempotencyEngine.onAudit := sink;
     IdempotencyEngine.fingerprintAlgorithm := js "sha256";
     IdempotencyEngine.keyPrefix := [] |}.

Definition memoryEngine (sink : Sink)
  : IdempotencyEngine.t (gmap jsstring MemoryStore.Entry) (list AuditEvent.t) :=
  {| IdempotencyEngine.store := MemoryStore.store;
     IdempotencyEngine.options := testOptions sink |}.

Definition onMemory (o : IdempotencyEngine.Options)
  : IdempotencyEngine.t (gmap jsstring MemoryStore.Entry) (list AuditEvent.t) :=
  {| IdempotencyEngine.store := MemoryStore.store; IdempotencyEngine.options := o |}.

Definition redisEngine : IdempotencyEngine.t RedisAdapter.Redis unit :=
  {| IdempotencyEngine.store := RedisAdapter.store;
     IdempotencyEngine.options := testOptions quietSink |}.

(** A store like [MemoryStore] whose [releaseLock] rejects. *)
Definition stubbornStore
  : IdempotencyStore (gmap jsstring MemoryStore.Entry) (list AuditEvent.t) :=
  {| atomicCheckAndLock := MemoryStore.atomicCheckAndLock;
     commitResult := MemoryStore.commitResult;
     releaseLock := Some (fun _ s => (Throw (new_Error (js "release failed")), s));
     recordAudit := Some MemoryStore.recordAudit |}.

Definition stubbornEngine
  : IdempotencyEngine.t (gmap jsstring MemoryStore.Entry) (list AuditEvent.t) :=
  {| IdempotencyEngine.store := stubbornStore;
     IdempotencyEngine.options := testOptions quietSink |}.

Definition world {S A} (s : S) (a : A) : World S A :=
  {| records := s; auditLog := a; sinkCalls := []; recordAuditCalls := [];
     handlerCalls := 0; clock := 1700000000000 |}.

Definition freshMemory : World (gmap jsstring MemoryStore.Entry) (list AuditEvent.t) :=
  world ∅ [].

Definition redisWith (db : gmap jsstring RedisAdapter.Stored)
           (unreachable : option jsstring) : World RedisAdapter.Redis unit :=
  world {| RedisAdapter.db := db; RedisAdapter.unreachable := unreachable |} tt.

(** The truncated JSON text that the test of the adapter stores under a
    key (an opening brace, the quoted word status, a colon and the
    unterminated quoted word proce): it does not decode. *)
Definition corruptText : jsstring :=
  js "{" ++ [34%N] ++ js "status" ++ [34%N] ++ js ":" ++ [34%N] ++ js "proce".

Definition committedTable (fp : jsstring) (result : value) (createdAt : Z)
  : RedisAdapter.Stored :=
  RedisAdapter.Table (Some (js "committed")) (Some fp) (Some result) (Some createdAt) None.

(** A host whose collation is the order of the code units and whose digest,
    for every algorithm, is the text itself. *)
Definition codeUnitHost : Host :=
  {| localeCompare := codeUnitCompare; createHash := fun _ => Some (fun text => text) |}.





(** A collation for which the letter e with acute accent (U+00E9) and the
    letter e followed by the combining acute accent (U+0301) are the same,
    as ECMA-262 requires of [localeCompare] for canonically equivalent
    strings, and which otherwise compares code units. *)
Definition decompose (s : jsstring) : jsstring :=
  flat_map (fun c => if (c =? 233)%N then [101%N; 769%N] else [c]) s.

Definition canonicalHost : Host :=
  {| localeCompare := fun a b => codeUnitCompare (decompose a) (decompose b);
     createHash := fun _ => Some (fun text => text) |}.

Definition accentPayload : value :=
  VObj [([233%N], VNum 1); ([101%N; 769%N], VNum 2)].

Definition accentPayloadReordered : value :=
  VObj [([101%N; 769%N], VNum 2); ([233%N], VNum 1)].

(** [{ success: true }] *)
Definition success : value := VObj [(js "success", VBool true)].

(** A server whose key holds a committed record. *)
Definition redisCommitted : RedisAdapter.Redis :=
  {| RedisAdapter.db :=
       {[ js "idemp:test-key" := committedTable (js "fp123") success 1700000000000 ]};
     RedisAdapter.unreachable := None |}.

(** The metadata of the test [should filter PII from audit events]. *)
Definition piiMetadata : list (jsstring * value) :=
  [ (js "password", VStr (js "secret123"));
    (js "email", VStr (js "user@example.com"));
    (js "ssn", VStr (js "123-45-6789"));
    (js "cvv", VStr (js "123"));
    (js "cardNumber", VStr (js "4111111111111111"));
    (js "requestId", VStr (js "req_123"));
    (js "clientId", VStr (js "client_456"));
    (js "ip", VStr (js "192.168.1.1")) ].

(** The world after a first call with a handler that returns [success]. *)
Definition afterFirstCall (key fp : jsstring)
  : World (gmap jsstring MemoryStore.Entry) (list AuditEvent.t) :=
  snd (IdempotencyEngine.execute (memoryEngine quietSink) key fp (Resolves success)
         None freshMemory).

Definition redisAfterFirstCall (key fp : jsstring) : World RedisAdapter.Redis unit :=
  snd (IdempotencyEngine.execute redisEngine key fp (Resolves success) None
         (redisWith ∅ None)).

Definition withMetadata (md : list (jsstring * value)) : option ExecuteOptions.t :=
  Some {| ExecuteOptions.onAudit := None; ExecuteOptions.handlerTimeout := None; ExecuteOptions.retentionOverride := None;
          ExecuteOptions.metadata := Some md |}.

End Scenario.

(** ** The fields that [errors.ts] gives to an error for the HTTP layer *)

(** [err.status] and [err.code] *)
Definition errStatus (e : thrown) : option Z :=
  match e with ErrorObject _ _ _ s _ _ _ => s | Primitive _ => None end.

Definition errCode (e : thrown) : option jsstring :=
  match e with ErrorObject _ _ _ _ c _ _ => c | Primitive _ => None end.

(** [err instanceof Error ? err.message : String(err)] *)
Definition errorText (err : thrown) : jsstring :=
  match err with
  | ErrorObject _ _ m _ _ _ _ => m
  | Primitive v => ToString v
  end.

(** ** The keys that the pattern of [_audit] removes, in plain words *)

Module Sensitive.

(** Equal up to the case of the ASCII letters. *)
Definition sameIgnoringCase (w word : jsstring) : Prop :=
  map Regex.canonicalize w = map Regex.canonicalize word.

Definition words : list jsstring :=
  map js ["password"; "token"; "secret"; "card"; "cvv"; "pin"; "ssn"; "email";
          "phone"]%string.

(** [full], at most one code unit that is no line terminator, [name]. *)
Definition fullName (w : jsstring) : Prop :=
  exists a m b,
    w = a ++ m ++ b
    /\ sameIgnoringCase a (js "full") /\ sameIgnoringCase b (js "name")
    /\ (m = [] \/ exists c, m = [c] /\ Regex.isLineTerminator c = false).

(** A key with a substring that is one of the words, or [fullName], in any
    case of the letters. *)
Definition key (k : jsstring) : Prop :=
  exists pre w post,
    k = pre ++ w ++ post /\ (List.Exists (sameIgnoringCase w) words \/ fullName w).

End Sensitive.

(** ** Properties with a value *)

(** A property whose value is not [undefined]. *)
Definition defined (p : jsstring * value) : bool :=
  match snd p with VUndefined => false | _ => true end.

(* ===================================================================== *)
(** * Part II.  Properties                                                *)
(* ===================================================================== *)

Import IdempotencyEngine.

(** ** The audit dispatcher *)

Section AuditDispatcher.
Context {S A : Type} (this : t S A).

Lemma _audit_returns event auditor (w : World S A) :
  fst (_audit this event auditor w) = Return tt.
Proof.
  unfold _audit, tryCatch, mbind, Eff_bind, bind, callSink, store_recordAudit.
  destruct (sinkFails auditor (safeEvent event)); simpl; [reflexivity|].
  destruct (recordAudit (store this)) as [f|]; simpl; [|reflexivity].
  unfold callRecordAudit; simpl.
  destruct (f (safeEvent event) (auditLog w)) as [[[]|e] a']; reflexivity.
Qed.

Lemma _audit_eq event auditor (w : World S A) :
  _audit this event auditor w = (Return tt, snd (_audit this event auditor w)).
Proof.
  rewrite <- (_audit_returns event auditor w).
  destruct (_audit this event auditor w); reflexivity.
Qed.

Lemma _audit_frame event auditor (w : World S A) :
  records (snd (_audit this event auditor w)) = records w
  /\ handlerCalls (snd (_audit this event auditor w)) = handlerCalls w
  /\ clock (snd (_audit this event auditor w)) = clock w.
Proof.
  unfold _audit, tryCatch, mbind, Eff_bind, bind, callSink, store_recordAudit.
  destruct (sinkFails auditor (safeEvent event)); simpl; [auto|].
  destruct (recordAudit (store this)) as [f|]; simpl; [|auto].
  unfold callRecordAudit; simpl.
  destruct (f (safeEvent event) (auditLog w)) as [[[]|e] a']; simpl; auto.
Qed.

Lemma _audit_sinkCalls event auditor (w : World S A) :
  sinkCalls (snd (_audit this event auditor w))
  = sinkCalls w ++ [(sinkId auditor, safeEvent event)].
Proof.
  unfold _audit, tryCatch, mbind, Eff_bind, bind, callSink, store_recordAudit.
  destruct (sinkFails auditor (safeEvent event)); simpl; [auto|].
  destruct (recordAudit (store this)) as [f|]; simpl; [|auto].
  unfold callRecordAudit; simpl.
  destruct (f (safeEvent event) (auditLog w)) as [[[]|e] a']; simpl; auto.
Qed.

Lemma _audit_recordAuditCalls event auditor (w : World S A) :
  recordAuditCalls (snd (_audit this event auditor w))
  = recordAuditCalls w
    ++ match recordAudit (store this), sinkFails auditor (safeEvent event) with
       | Some _, None => [safeEvent event]
       | _, _ => []
       end.
Proof.
  unfold _audit, tryCatch, mbind, Eff_bind, bind, callSink, store_recordAudit.
  destruct (sinkFails auditor (safeEvent event)); simpl.
  - destruct (recordAudit (store this)); rewrite app_nil_r; reflexivity.
  - destruct (recordAudit (store this)) as [f|]; simpl; [|rewrite app_nil_r; reflexivity].
    unfold callRecordAudit; simpl.
    destruct (f (safeEvent event) (auditLog w)) as [[[]|e] a']; simpl; auto.
Qed.

End AuditDispatcher.

(** ** The paths of [execute] *)

Ltac world_simpl :=
  cbn [records auditLog sinkCalls recordAuditCalls handlerCalls clock fst snd] in *.

(* One call of [_audit]: the world after it is named and described by the
   lemmas of the dispatcher. *)
Ltac audit_step :=
  match goal with
  | |- context [_audit ?t ?e ?s ?w] =>
      rewrite (_audit_eq t e s w);
      let w' := fresh "w" in
      let Hr := fresh "Hrec" in
      let Hh := fresh "Hhc" in
      let Hc := fresh "Hclk" in
      let Hs := fresh "Hsink" in
      let Hp := fresh "Hpers" in
      pose proof (_audit_frame t e s w) as (Hr & Hh & Hc);
      pose proof (_audit_sinkCalls t e s w) as Hs;
      pose proof (_audit_recordAuditCalls t e s w) as Hp;
      set (w' := snd (_audit t e s w)) in *; clearbody w';
      world_simpl;
      rewrite ?Hr, ?Hc
  end.

(* One call of the store or of the handler: a case for each completion. *)
Ltac store_step :=
  match goal with
  | |- context [atomicCheckAndLock ?st ?k ?f ?t ?c ?s] =>
      let s1 := fresh "s" in
      let E := fresh "Echeck" in
      destruct (atomicCheckAndLock st k f t c s) as [[[? ? ?| |]|?] s1] eqn:E
  | |- context [commitResult ?st ?k ?f ?r ?t ?c ?s] =>
      let s1 := fresh "s" in
      let E := fresh "Ecommit" in
      destruct (commitResult st k f r t c s) as [[[]|?] s1] eqn:E
  | |- context [match releaseLock ?st with _ => _ end] =>
      let E := fresh "Erel" in
      destruct (releaseLock st) eqn:E
  | |- context [match ?f ?k ?s with _ => _ end] =>
      match goal with
      | H : releaseLock _ = Some f |- _ =>
          let s1 := fresh "s" in
          let E := fresh "Erelease" in
          destruct (f k s) as [[[]|?] s1] eqn:E
      end
  | |- context [match ?h with Resolves _ => _ | _ => _ end] =>
      let E := fresh "Ehandler" in
      destruct h eqn:E
  end.

Ltac exec_unfold :=
  cbv [mbind Eff_bind bind onRecords now throw ret mret Eff_ret tryCatch tryFinally
       raceHandler store_releaseLock].

Ltac exec_paths :=
  exec_unfold; world_simpl;
  repeat (first [ audit_step
                | store_step
                | match goal with
                  | |- context [bool_decide ?P] => destruct (bool_decide P) eqn:?
                  end ];
          exec_unfold; world_simpl).

Ltac chains :=
  repeat match goal with
         | H : sinkCalls _ = _ |- _ => rewrite H
         | H : recordAuditCalls _ = _ |- _ => rewrite H
         | H : handlerCalls _ = _ |- _ => rewrite H
         end;
  rewrite <- ?app_assoc.

(* A leaf of [execute_run]: the calls added by the path, then its case. *)
Ltac release_case :=
  first [ left; reflexivity
        | right; split;
          [ reflexivity
          | match goal with
            | H : ?f ?k ?s = (Throw ?e, _) |- _ =>
                exists f, s, e; split; [reflexivity | rewrite H; reflexivity]
            end ] ].

Ltac run_case :=
  first
    [ left; split_and!; [reflexivity | reflexivity | solve [eauto]]
    | right; left; split_and!; [reflexivity | reflexivity | solve [eauto]]
    | right; right; left; split_and!; [reflexivity | reflexivity | solve [eauto]]
    | right; right; right; left; split_and!; [reflexivity | reflexivity | solve [eauto]]
    | right; right; right; right; exists AuditEvent.stored; split_and!;
      [ left; split; [reflexivity | solve [eauto]] | reflexivity | release_case ]
    | right; right; right; right; exists AuditEvent.timeout; split_and!;
      [ right; split; [left; reflexivity | solve [eauto]] | reflexivity | release_case ]
    | right; right; right; right; exists AuditEvent.error; split_and!;
      [ right; split; [right; reflexivity | solve [eauto]] | reflexivity | release_case ] ].

Ltac run_leaf :=
  chains;
  eexists; split; [first [reflexivity | symmetry; apply app_nil_r]|];
  split; [repeat constructor; cbn [fst snd]; eauto|];
  split;
    [ destruct (recordAudit (store _)); unfold sinkSucceeds;
      cbn [app map snd List.filter];
      repeat match goal with
             | |- context [sinkFails ?s ?e] => destruct (sinkFails s e)
             end;
      cbn [app]; rewrite ?app_nil_r; reflexivity |];
  split; [congruence|];
  try match goal with
      | |- context [instanceOf ?e ?c] => destruct (instanceOf e c)
      end;
  cbn [actions map snd fst AuditEvent.action app safeEvent];
  run_case.

Section Paths.
Context {S A : Type} (this : t S A).

Lemma execute_run key fp handler opts (w : World S A) :
  ∃ new : list (nat * AuditEvent.t),
    sinkCalls (snd (execute this key fp handler opts w)) = sinkCalls w ++ new
    ∧ Forall (fun c => fst c = sinkId (activeSink this opts)
                       ∧ ∃ e, snd c = safeEvent e) new
    ∧ recordAuditCalls (snd (execute this key fp handler opts w))
      = recordAuditCalls w
        ++ match recordAudit (store this) with
           | Some _ => List.filter (sinkSucceeds (activeSink this opts)) (map snd new)
           | None => []
           end
    ∧ clock (snd (execute this key fp handler opts w)) = clock w
    ∧ ((actions new = []
        ∧ handlerCalls (snd (execute this key fp handler opts w)) = handlerCalls w
        ∧ ∃ e, fst (execute this key fp handler opts w) = Throw e)
       ∨ (actions new = [AuditEvent.hit]
          ∧ handlerCalls (snd (execute this key fp handler opts w)) = handlerCalls w
          ∧ ∃ r, fst (execute this key fp handler opts w) = Return r)
       ∨ (actions new = [AuditEvent.fingerprint_mismatch]
          ∧ handlerCalls (snd (execute this key fp handler opts w)) = handlerCalls w
          ∧ ∃ e, fst (execute this key fp handler opts w) = Throw e)
       ∨ (actions new = [AuditEvent.locked]
          ∧ handlerCalls (snd (execute this key fp handler opts w)) = handlerCalls w
          ∧ ∃ e, fst (execute this key fp handler opts w) = Throw e)
       ∨ (∃ X,
            ((X = AuditEvent.stored
              ∧ ∃ r, fst (execute this key fp handler opts w) = Return r)
             ∨ ((X = AuditEvent.timeout ∨ X = AuditEvent.error)
                ∧ ∃ e, fst (execute this key fp handler opts w) = Throw e))
            ∧ handlerCalls (snd (execute this key fp handler opts w))
              = Datatypes.S (handlerCalls w)
            ∧ (actions new = [AuditEvent.acquired; X; AuditEvent.lock_released]
               ∨ (actions new = [AuditEvent.acquired; X]
                  ∧ ∃ f s e, releaseLock (store this) = Some f
                             ∧ fst (f (keyPrefix (options this) ++ trim key) s)
                               = Throw e)))).
Proof.
  assert (Hpers : recordAuditCalls w
                  = recordAuditCalls w
                    ++ match recordAudit (store this) with
                       | Some _ =>
                           List.filter (sinkSucceeds (activeSink this opts))
                             (map snd (@nil (nat * AuditEvent.t)))
                       | None => []
                       end).
  { destruct (recordAudit (store this)); simpl; rewrite app_nil_r; reflexivity. }
  unfold execute.
  destruct (_ || _).
  { exists []. cbv [throw fst snd]. rewrite app_nil_r.
    split_and!; [reflexivity | constructor | exact Hpers | reflexivity | left; eauto]. }
  destruct (_ || _).
  { exists []. cbv [throw fst snd]. rewrite app_nil_r.
    split_and!; [reflexivity | constructor | exact Hpers | reflexivity | left; eauto]. }
  destruct (_ <? _).
  { exists []. cbv [throw fst snd]. rewrite app_nil_r.
    split_and!; [reflexivity | constructor | exact Hpers | reflexivity | left; eauto]. }
  clear Hpers.
  exec_paths; once run_leaf.
Qed.

End Paths.

(** ** The regular expression matcher is the declarative matching *)

Section RegexCorrect.
Import Regex.

Lemma remainders_spec r : forall s s',
  In s' (remainders r s) <-> exists w, s = w ++ s' /\ Matches r w.
Proof.
  induction r as [|c| |r1 IH1 r2 IH2|r1 IH1 r2 IH2|r IH]; intros s s'; simpl.
  - split.
    + intros [->|[]]. exists []. split; [reflexivity|constructor].
    + intros (w & -> & Hm). inversion Hm; subst. left; reflexivity.
  - split.
    + destruct s as [|x s]; [intros []|].
      destruct (N.eqb_spec (canonicalize x) (canonicalize c)) as [E|E]; [|intros []].
      intros [->|[]]. exists [x]. split; [reflexivity|constructor; exact E].
    + intros (w & -> & Hm). inversion Hm; subst. simpl.
      rewrite (proj2 (N.eqb_eq _ _)) by assumption. left; reflexivity.
  - split.
    + destruct s as [|x s]; [intros []|].
      destruct (isLineTerminator x) eqn:E; [intros []|].
      intros [->|[]]. exists [x]. split; [reflexivity|constructor; exact E].
    + intros (w & -> & Hm). inversion Hm; subst. simpl.
      match goal with H : isLineTerminator _ = false |- _ => rewrite H end.
      left; reflexivity.
  - rewrite in_app_iff, IH1, IH2. split.
    + intros [(w & ? & ?)|(w & ? & ?)]; exists w; split; auto using Matches.
    + intros (w & ? & Hm). inversion Hm; subst; [left|right]; eauto.
  - rewrite in_flat_map. split.
    + intros (m & H1 & H2). apply IH1 in H1 as (w1 & -> & Hm1).
      apply IH2 in H2 as (w2 & -> & Hm2).
      exists (w1 ++ w2). rewrite <- app_assoc. split; [reflexivity|].
      constructor; assumption.
    + intros (w & -> & Hm). inversion Hm; subst.
      exists (w2 ++ s'). split.
      * apply IH1. exists w1. rewrite <- app_assoc. split; [reflexivity|assumption].
      * apply IH2. eauto.
  - rewrite in_app_iff, IH. simpl. split.
    + intros [(w & ? & ?)|[<-|[]]].
      * exists w. split; [assumption|constructor; assumption].
      * exists []. split; [reflexivity|apply MOptNone].
    + intros (w & -> & Hm). inversion Hm; subst; [left; eauto|right; left; reflexivity].
Qed.

Lemma matchesAt_spec r s :
  matchesAt r s = true <-> exists w post, s = w ++ post /\ Matches r w.
Proof.
  unfold matchesAt. split.
  - destruct (remainders r s) as [|s' l] eqn:E; [discriminate|]. intros _.
    assert (H : In s' (remainders r s)) by (rewrite E; left; reflexivity).
    apply remainders_spec in H as (w & ? & ?). eauto.
  - intros (w & post & Hs & Hm).
    assert (H : In post (remainders r s)) by (apply remainders_spec; eauto).
    destruct (remainders r s); [destruct H|reflexivity].
Qed.

Lemma test_spec r s : test r s = true <-> Occurs r s.
Proof.
  unfold Occurs. induction s as [|x s IH]; simpl.
  - rewrite orb_false_r, matchesAt_spec. split.
    + intros (w & post & Hs & Hm). exists [], w, post. split; assumption.
    + intros (pre & w & post & Hs & Hm).
      destruct pre; [|discriminate]. exists w, post. split; assumption.
  - rewrite orb_true_iff, matchesAt_spec, IH. split.
    + intros [(w & post & Hs & Hm)|(pre & w & post & -> & Hm)].
      * exists [], w, post. split; assumption.
      * exists (x :: pre), w, post. split; [reflexivity|assumption].
    + intros (pre & w & post & Hs & Hm). destruct pre as [|y pre].
      * left. exists w, post. split; assumption.
      * right. simpl in Hs. injection Hs as <- ->. exists pre, w, post.
        split; [reflexivity|assumption].
Qed.

End RegexCorrect.

(** ** Object helpers *)

Section ObjectLemmas.
Context {V : Type}.
Implicit Types ps es : list (jsstring * V).

Lemma keys_setProperty k v ps k' :
  In k' (keys (setProperty k v ps)) -> k' = k \/ In k' (keys ps).
Proof.
  unfold keys. induction ps as [|[k0 v0] ps IH]; simpl.
  - intros [<-|[]]; auto.
  - destruct (decide (k0 = k)) as [->|Hne]; simpl.
    + intros [<-|?]; auto.
    + intros [<-|H]; [auto|]. destruct (IH H); auto.
Qed.

Lemma keys_fold_setProperty es : forall ps k',
  In k' (keys (fold_left (fun o e => setProperty (fst e) (snd e) o) es ps)) ->
  In k' (keys ps) \/ In k' (keys es).
Proof.
  induction es as [|[k v] es IH]; intros ps k'; simpl; [auto|].
  intros H. apply IH in H as [H|H]; [|auto].
  apply keys_setProperty in H as [->|H]; auto.
Qed.

Lemma keys_fromEntries es k : In k (keys (fromEntries es)) -> In k (keys es).
Proof.
  unfold fromEntries. intros H. apply keys_fold_setProperty in H as [[]|H]. exact H.
Qed.

End ObjectLemmas.

(** ** Redaction *)

Lemma safeEvent_redacted event : redacted (safeEvent event).
Proof.
  unfold redacted, safeEvent, redact; simpl.
  destruct (AuditEvent.metadata event) as [md|]; [|exact I].
  apply List.Forall_forall. intros k Hk.
  apply keys_fromEntries in Hk. unfold keys in Hk.
  apply in_map_iff in Hk as ([k' v] & <- & Hin).
  apply filter_In in Hin as [_ Hf]. simpl in *.
  rewrite <- test_spec. destruct (Regex.test sensitivePattern k'); [discriminate|auto].
Qed.

(** ** What one call of [execute] adds to the calls *)

Section Observed.
Context {S A : Type} (this : t S A).

Lemma emitted_eq {T} (m : Eff S A T) (w : World S A) new :
  sinkCalls (snd (m w)) = sinkCalls w ++ new -> emitted m w = new.
Proof. unfold emitted. intros ->. apply drop_app_length. Qed.

Lemma persisted_eq {T} (m : Eff S A T) (w : World S A) new :
  recordAuditCalls (snd (m w)) = recordAuditCalls w ++ new -> persisted m w = new.
Proof. unfold persisted. intros ->. apply drop_app_length. Qed.

End Observed.

(** ** The audit stream of one call *)

Section AuditStream.
Context {S A : Type} (this : t S A).

(** C10.  Whatever the key, the fingerprint, the handler, the options and
    the world, no event that [execute] hands to the audit callback or to
    [store.recordAudit] has the action [miss]: every action is one of
    [hit], [acquired], [locked], [fingerprint_mismatch], [stored], [error],
    [timeout], [lock_released]. *)
Theorem execute_never_emits_miss key fp handler opts (w : World S A) :
  Forall (fun a => a <> AuditEvent.miss
                   /\ In a [AuditEvent.hit; AuditEvent.acquired; AuditEvent.locked;
                            AuditEvent.fingerprint_mismatch; AuditEvent.stored;
                            AuditEvent.error; AuditEvent.timeout;
                            AuditEvent.lock_released])
         (actions (emitted (execute this key fp handler opts) w)
          ++ map AuditEvent.action (persisted (execute this key fp handler opts) w)).
Proof.
  destruct (execute_run this key fp handler opts w)
    as (new & Hs & _ & Hp & _ & Hcases).
  rewrite (emitted_eq _ _ _ Hs), (persisted_eq _ _ _ Hp).
  assert (Hnew : Forall (fun a => a <> AuditEvent.miss
                   /\ In a [AuditEvent.hit; AuditEvent.acquired; AuditEvent.locked;
                            AuditEvent.fingerprint_mismatch; AuditEvent.stored;
                            AuditEvent.error; AuditEvent.timeout;
                            AuditEvent.lock_released]) (actions new)).
  { destruct Hcases as [(-> & _)|[(-> & _)|[(-> & _)|[(-> & _)|(X & HX & _ & Hl)]]]].
    - constructor.
    - repeat constructor; simpl; auto; discriminate.
    - repeat constructor; simpl; auto; discriminate.
    - repeat constructor; simpl; auto; discriminate.
    - assert (X <> AuditEvent.miss
              /\ In X [AuditEvent.hit; AuditEvent.acquired; AuditEvent.locked;
                       AuditEvent.fingerprint_mismatch; AuditEvent.stored;
                       AuditEvent.error; AuditEvent.timeout;
                       AuditEvent.lock_released]) as HXok.
      { destruct HX as [[-> _]|[[-> | ->] _]]; split; simpl; auto 10; discriminate. }
      destruct Hl as [-> | [-> _]];
        repeat (constructor; [first [exact HXok | split; simpl; auto 10; discriminate]|]);
        constructor. }
  apply Forall_app. split; [exact Hnew|].
  destruct (recordAudit (store this)); [|constructor].
  unfold actions in Hnew. rewrite List.Forall_forall in *.
  intros a Ha. apply in_map_iff in Ha as (e & <- & He).
  apply filter_In in He as [He _].
  apply in_map_iff in He as (c & <- & Hc).
  apply Hnew. apply in_map_iff. eauto.
Qed.

(** C7.  Every event that [execute] hands to the audit callback or to
    [store.recordAudit], whatever metadata the caller supplied, has no
    metadata key with a substring matched by
    [/(password|token|secret|card|cvv|pin|ssn|full.?name|email|phone)/i]. *)
Theorem execute_redacts_metadata key fp handler opts (w : World S A) :
  Forall redacted
         (map snd (emitted (execute this key fp handler opts) w)
          ++ persisted (execute this key fp handler opts) w).
Proof.
  destruct (execute_run this key fp handler opts w)
    as (new & Hs & Hall & Hp & _ & _).
  rewrite (emitted_eq _ _ _ Hs), (persisted_eq _ _ _ Hp).
  assert (Hnew : Forall redacted (map snd new)).
  { rewrite List.Forall_forall in *. intros e He.
    apply in_map_iff in He as (c & <- & Hc).
    destruct (Hall c Hc) as (_ & e' & ->). apply safeEvent_redacted. }
  apply Forall_app. split; [exact Hnew|].
  destruct (recordAudit (store this)); [|constructor].
  rewrite List.Forall_forall in *. intros e He.
  apply filter_In in He as [He _]. auto.
Qed.

(** C6, as amended.  The actions of the events that one call of [execute]
    hands to the audit callback are, in order: nothing, when the call is
    rejected before it reaches the handler or the cache; or exactly one of
    [hit], [locked], [fingerprint_mismatch]; or [acquired], then exactly
    one of [stored], [timeout], [error], then [lock_released], the last
    being left out only when [store.releaseLock] exists and fails. *)
Theorem execute_audit_order key fp handler opts (w : World S A) :
  (actions (emitted (execute this key fp handler opts) w) = []
   /\ exists e, fst (execute this key fp handler opts w) = Throw e)
  \/ actions (emitted (execute this key fp handler opts) w) = [AuditEvent.hit]
  \/ actions (emitted (execute this key fp handler opts) w) = [AuditEvent.locked]
  \/ actions (emitted (execute this key fp handler opts) w)
     = [AuditEvent.fingerprint_mismatch]
  \/ exists X,
      (X = AuditEvent.stored \/ X = AuditEvent.timeout \/ X = AuditEvent.error)
      /\ (actions (emitted (execute this key fp handler opts) w)
          = [AuditEvent.acquired; X; AuditEvent.lock_released]
          \/ (actions (emitted (execute this key fp handler opts) w)
              = [AuditEvent.acquired; X]
              /\ exists f s e,
                  releaseLock (store this) = Some f
                  /\ fst (f (keyPrefix (options this) ++ trim key) s) = Throw e)).
Proof.
  destruct (execute_run this key fp handler opts w)
    as (new & Hs & _ & _ & _ & Hcases).
  rewrite (emitted_eq _ _ _ Hs).
  destruct Hcases as [(-> & _ & He)|[(-> & _)|[(-> & _)|[(-> & _)|(X & HX & _ & Hl)]]]];
    auto 6.
  do 4 right. exists X. split; [|exact Hl].
  destruct HX as [[-> _]|[[-> | ->] _]]; auto.
Qed.

End AuditStream.

(** C6, counterexample.  With a store whose [releaseLock] rejects, a call
    whose handler succeeds emits [acquired] and [stored] and nothing else:
    a sequence that is neither one of the three single events of the cache
    path nor [acquired], one of [stored], [timeout], [error], and
    [lock_released]. *)
Lemma release_failure_drops_lock_released :
  actions (emitted (execute Scenario.stubbornEngine (js "k1") (js "fp")
                      (Resolves Scenario.success) None) Scenario.freshMemory)
  = [AuditEvent.acquired; AuditEvent.stored]
  /\ ~ (actions (emitted (execute Scenario.stubbornEngine (js "k1") (js "fp")
                           (Resolves Scenario.success) None) Scenario.freshMemory)
        = [AuditEvent.hit]
        \/ actions (emitted (execute Scenario.stubbornEngine (js "k1") (js "fp")
                               (Resolves Scenario.success) None) Scenario.freshMemory)
           = [AuditEvent.locked]
        \/ actions (emitted (execute Scenario.stubbornEngine (js "k1") (js "fp")
                               (Resolves Scenario.success) None) Scenario.freshMemory)
           = [AuditEvent.fingerprint_mismatch]
        \/ exists X,
            actions (emitted (execute Scenario.stubbornEngine (js "k1") (js "fp")
                                (Resolves Scenario.success) None) Scenario.freshMemory)
            = [AuditEvent.acquired; X; AuditEvent.lock_released]).
Proof.
  assert (E : actions (emitted (execute Scenario.stubbornEngine (js "k1") (js "fp")
                                  (Resolves Scenario.success) None) Scenario.freshMemory)
              = [AuditEvent.acquired; AuditEvent.stored]) by (vm_compute; reflexivity).
  rewrite E. split; [reflexivity|].
  intros [H|[H|[H|[X H]]]]; discriminate H.
Qed.

(** The redaction on the metadata of the test suite: of the eight keys the
    three harmless ones are left, in every event of the call. *)
Example pii_metadata_is_filtered :
  map (fun c => option_map keys (AuditEvent.metadata (snd c)))
      (emitted (execute (Scenario.memoryEngine Scenario.quietSink)
                  (js "pii-filter-key") (js "fp") (Resolves Scenario.success)
                  (Scenario.withMetadata Scenario.piiMetadata))
               Scenario.freshMemory)
  = [ Some [js "requestId"; js "clientId"; js "ip"];
      Some [js "requestId"; js "clientId"; js "ip"];
      Some [js "requestId"; js "clientId"; js "ip"] ].
Proof. vm_compute. reflexivity. Qed.

(** ** Isolation of the audit path *)

Section AuditIsolation.
Context {S A : Type} (this : t S A).


End AuditIsolation.



(** ** Calls that pass the validation *)

Lemma key_accepted (key : jsstring) :
  trim key <> [] ->
  (match key with [] => true | _ => false end || (length (trim key) =? 0)%nat) = false.
Proof.
  intros H. destruct key as [|c key]; [destruct H; reflexivity|].
  destruct (trim (c :: key)); [destruct H; reflexivity|reflexivity].
Qed.

Lemma timeout_accepted (t : Z) :
  50 <= t <= 300000 -> (t <? 50) || (t >? 300000) = false.
Proof. intros H. apply orb_false_iff. split; lia. Qed.

Lemma retention_accepted (t : Z) : 86400000 <= t -> (t <? 86400000) = false.
Proof. lia. Qed.

Ltac pass_validation Hk Ht Hr :=
  unfold execute;
  rewrite (key_accepted _ Hk), (timeout_accepted _ Ht), (retention_accepted _ Hr).

(** ** Failures of the store *)




(** ** The engine over [MemoryStore] *)

Section OnMemory.
Context (o : Options).
Implicit Types w : World (gmap jsstring MemoryStore.Entry) (list AuditEvent.t).

Ltac memory_ops :=
  cbn [Scenario.onMemory store options MemoryStore.store atomicCheckAndLock
       commitResult releaseLock];
  unfold MemoryStore.atomicCheckAndLock, MemoryStore.commitResult,
         MemoryStore.releaseLock.

Lemma memory_first_call key fp r opts w :
  trim key <> [] ->
  50 <= default 30000 (opts ≫= ExecuteOptions.handlerTimeout) <= 300000 ->
  86400000 <= default (retention o) (opts ≫= ExecuteOptions.retentionOverride) ->
  records w !! (keyPrefix o ++ trim key : jsstring) = None ->
  fst (execute (Scenario.onMemory o) key fp (Resolves r) opts w) = Return r
  /\ records (snd (execute (Scenario.onMemory o) key fp (Resolves r) opts w))
     = <[(keyPrefix o ++ trim key : jsstring) := MemoryStore.Committed fp r (clock w)]> (records w)
  /\ handlerCalls (snd (execute (Scenario.onMemory o) key fp (Resolves r) opts w))
     = Datatypes.S (handlerCalls w)
  /\ clock (snd (execute (Scenario.onMemory o) key fp (Resolves r) opts w)) = clock w
  /\ actions (emitted (execute (Scenario.onMemory o) key fp (Resolves r) opts) w)
     = [AuditEvent.acquired; AuditEvent.stored; AuditEvent.lock_released].
Proof.
  intros Hk Ht Hr Hnone. unfold emitted.
  unfold execute. cbn [Scenario.onMemory options].
  rewrite (key_accepted _ Hk), (timeout_accepted _ Ht), (retention_accepted _ Hr).
  exec_unfold; world_simpl. memory_ops.
  rewrite Hnone. world_simpl.
  audit_step. exec_unfold; world_simpl. memory_ops.
  rewrite lookup_insert_eq. world_simpl.
  audit_step. exec_unfold; world_simpl. memory_ops.
  rewrite lookup_insert_eq. world_simpl.
  audit_step. exec_unfold; world_simpl.
  chains. rewrite drop_app_length, insert_insert_eq.
  split_and!; try reflexivity; congruence.
Qed.

Lemma memory_cached_call key fp handler opts w storedFp result createdAt :
  trim key <> [] ->
  50 <= default 30000 (opts ≫= ExecuteOptions.handlerTimeout) <= 300000 ->
  86400000 <= default (retention o) (opts ≫= ExecuteOptions.retentionOverride) ->
  records w !! (keyPrefix o ++ trim key : jsstring)
  = Some (MemoryStore.Committed storedFp result createdAt) ->
  fst (execute (Scenario.onMemory o) key fp handler opts w)
  = (if bool_decide (storedFp <> fp)
     then Throw (new_FingerprintMismatchError
                   (Some (js "Fingerprint mismatch for key " ++ key ++ js " "
                             ++ enDash
                             ++ js " possible replay attack or key reuse with different payload"))
                   None)
     else Return result)
  /\ records (snd (execute (Scenario.onMemory o) key fp handler opts w)) = records w
  /\ handlerCalls (snd (execute (Scenario.onMemory o) key fp handler opts w)) = handlerCalls w
  /\ map (fun c => (AuditEvent.action (snd c), AuditEvent.fingerprint (snd c),
                    AuditEvent.storedFingerprint (snd c)))
         (emitted (execute (Scenario.onMemory o) key fp handler opts) w)
     = [if bool_decide (storedFp <> fp)
        then (AuditEvent.fingerprint_mismatch, Some fp, Some storedFp)
        else (AuditEvent.hit, Some fp, None)].
Proof.
  intros Hk Ht Hr Hsome. unfold emitted.
  unfold execute. cbn [Scenario.onMemory options].
  rewrite (key_accepted _ Hk), (timeout_accepted _ Ht), (retention_accepted _ Hr).
  exec_unfold; world_simpl. memory_ops.
  rewrite Hsome. world_simpl.
  destruct (bool_decide (storedFp <> fp)).
  - audit_step. exec_unfold; world_simpl. chains. rewrite drop_app_length.
    split_and!; try reflexivity; congruence.
  - audit_step. exec_unfold; world_simpl. chains. rewrite drop_app_length.
    split_and!; try reflexivity; congruence.
Qed.

End OnMemory.



(** ** Replay with another fingerprint *)

(** Over the store of the test suite, a call on a key whose record is
    committed with another fingerprint is rejected with a
    [FingerprintMismatchError] and the handler is not invoked; the
    [storedFingerprint] of the error is [undefined]. *)
Lemma replay_is_rejected (o : Options) (key fp : jsstring) (handler : HandlerOutcome)
      (opts : option ExecuteOptions.t)
      (w : World (gmap jsstring MemoryStore.Entry) (list AuditEvent.t))
      (F : jsstring) (result : value) (createdAt : Z) :
  trim key <> [] ->
  50 <= default 30000 (opts ≫= ExecuteOptions.handlerTimeout) <= 300000 ->
  86400000 <= default (retention o) (opts ≫= ExecuteOptions.retentionOverride) ->
  records w !! (keyPrefix o ++ trim key : jsstring)
  = Some (MemoryStore.Committed F result createdAt) ->
  F <> fp ->
  exists e,
    fst (execute (Scenario.onMemory o) key fp handler opts w) = Throw e
    /\ errClass e = Some FingerprintMismatchError
    /\ errStoredFingerprint e = None
    /\ invocations (execute (Scenario.onMemory o) key fp handler opts) w = 0%nat
    /\ map (fun c => AuditEvent.storedFingerprint (snd c))
           (emitted (execute (Scenario.onMemory o) key fp handler opts) w)
       = [Some F].
Proof.
  intros Hk Ht Hr Hsome Hne.
  destruct (memory_cached_call o key fp handler opts w F result createdAt Hk Ht Hr Hsome)
    as (Hc & _ & Hh & Ha).
  rewrite bool_decide_true in Hc, Ha by exact Hne.
  eexists. split; [exact Hc|]. split_and!; try reflexivity.
  - unfold invocations. rewrite Hh. lia.
  - revert Ha.
    generalize (emitted (execute (Scenario.onMemory o) key fp handler opts) w).
    intros l Hl. destruct l as [|c [|c' l]]; try discriminate Hl.
    simpl in Hl. injection Hl as _ _ Hs. simpl. rewrite Hs. reflexivity.
Qed.

(** C2, at the failing input: scenario S2.  After a first call has
    committed the key with fingerprint [aa], a call with fingerprint [bb] is
    rejected with a [FingerprintMismatchError] without invoking the handler,
    and the audit event carries the stored fingerprint; the error carries
    none. *)
Theorem mismatch_error_omits_stored_fingerprint :
  records (Scenario.afterFirstCall (js "k2") (js "aa")) !! js "k2"
  = Some (MemoryStore.Committed (js "aa") Scenario.success 1700000000000)
  /\ exists e,
      fst (execute (Scenario.memoryEngine Scenario.quietSink) (js "k2") (js "bb")
             (Resolves Scenario.success) None
             (Scenario.afterFirstCall (js "k2") (js "aa")))
      = Throw e
      /\ errClass e = Some FingerprintMismatchError
      /\ errStoredFingerprint e = None
      /\ invocations (execute (Scenario.memoryEngine Scenario.quietSink) (js "k2")
                        (js "bb") (Resolves Scenario.success) None)
           (Scenario.afterFirstCall (js "k2") (js "aa")) = 0%nat
      /\ map (fun c => AuditEvent.storedFingerprint (snd c))
             (emitted (execute (Scenario.memoryEngine Scenario.quietSink) (js "k2")
                         (js "bb") (Resolves Scenario.success) None)
                (Scenario.afterFirstCall (js "k2") (js "aa")))
         = [Some (js "aa")].
Proof.
  assert (Hrec : records (Scenario.afterFirstCall (js "k2") (js "aa")) !! js "k2"
                 = Some (MemoryStore.Committed (js "aa") Scenario.success 1700000000000))
    by (vm_compute; reflexivity).
  split; [exact Hrec|].
  apply (replay_is_rejected (Scenario.testOptions Scenario.quietSink) (js "k2") (js "bb")
           (Resolves Scenario.success) None
           (Scenario.afterFirstCall (js "k2") (js "aa"))
           (js "aa") Scenario.success 1700000000000).
  - vm_compute. discriminate.
  - vm_compute. split; discriminate.
  - vm_compute. discriminate.
  - exact Hrec.
  - vm_compute. discriminate.
Qed.

(** ** The stores *)

(** Over [MemoryStore], [acquired] installs a processing record, and a
    further [atomicCheckAndLock] on the key is answered [locked]. *)
Lemma MemoryStore_acquired_installs_lock (key fp : jsstring) (ttl now : Z)
      (s s' : gmap jsstring MemoryStore.Entry) :
  MemoryStore.atomicCheckAndLock key fp ttl now s = (Return Acquired, s') ->
  s' !! key = Some (MemoryStore.Processing now ttl)
  /\ forall fp' ttl' now',
      MemoryStore.atomicCheckAndLock key fp' ttl' now' s' = (Return Locked, s').
Proof.
  unfold MemoryStore.atomicCheckAndLock.
  destruct (s !! key) as [[]|] eqn:E; intros H; try discriminate H.
  injection H as <-. split; [apply lookup_insert_eq|].
  intros. rewrite lookup_insert_eq. reflexivity.
Qed.

(** The script does the same on a key that holds nothing. *)
Lemma CHECK_AND_LOCK_on_absent_key (key : jsstring) (ttl now : Z)
      (db : gmap jsstring RedisAdapter.Stored) :
  db !! key = None ->
  fst (RedisAdapter.CHECK_AND_LOCK key ttl now db) = Acquired
  /\ forall ttl' now',
      fst (RedisAdapter.CHECK_AND_LOCK key ttl' now'
             (snd (RedisAdapter.CHECK_AND_LOCK key ttl now db))) = Locked.
Proof.
  intros H. unfold RedisAdapter.CHECK_AND_LOCK. rewrite H. simpl.
  split; [reflexivity|]. intros. rewrite lookup_insert_eq. reflexivity.
Qed.

(** On a value that does not decode it answers [acquired] and writes
    nothing. *)
Lemma CHECK_AND_LOCK_on_undecodable (key raw : jsstring) (ttl now : Z)
      (db : gmap jsstring RedisAdapter.Stored) :
  db !! key = Some (RedisAdapter.Undecodable raw) ->
  RedisAdapter.CHECK_AND_LOCK key ttl now db = (Acquired, db).
Proof. intros H. unfold RedisAdapter.CHECK_AND_LOCK. rewrite H. reflexivity. Qed.

(** C3, at the failing input.  On a key of the Redis server that holds the
    undecodable text of the adapter's test, [atomicCheckAndLock] answers
    [acquired] and leaves the server as it was, the undecodable value still
    under the key and no processing record; a second [atomicCheckAndLock]
    on the key, before any commit or release, answers [acquired] again. *)
Theorem undecodable_record_is_acquired_twice :
  RedisAdapter.atomicCheckAndLock (js "idemp:test-key") (js "fp123") 5000 1700000000000
    {| RedisAdapter.db :=
         {[ js "idemp:test-key" := RedisAdapter.Undecodable Scenario.corruptText ]};
       RedisAdapter.unreachable := None |}
  = (Return Acquired,
     {| RedisAdapter.db :=
          {[ js "idemp:test-key" := RedisAdapter.Undecodable Scenario.corruptText ]};
        RedisAdapter.unreachable := None |})
  /\ fst (RedisAdapter.atomicCheckAndLock (js "idemp:test-key") (js "fp123") 5000
            1700000000001
            (snd (RedisAdapter.atomicCheckAndLock (js "idemp:test-key") (js "fp123")
                    5000 1700000000000
                    {| RedisAdapter.db :=
                         {[ js "idemp:test-key" :=
                              RedisAdapter.Undecodable Scenario.corruptText ]};
                       RedisAdapter.unreachable := None |})))
     = Return Acquired.
Proof.
  unfold RedisAdapter.atomicCheckAndLock. simpl RedisAdapter.unreachable.
  cbn [RedisAdapter.db].
  rewrite (CHECK_AND_LOCK_on_undecodable _ Scenario.corruptText)
    by apply lookup_singleton_eq.
  split; [reflexivity|]. cbn [snd RedisAdapter.unreachable RedisAdapter.db].
  rewrite (CHECK_AND_LOCK_on_undecodable _ Scenario.corruptText)
    by apply lookup_singleton_eq.
  reflexivity.
Qed.

(** Over [MemoryStore], [releaseLock] leaves a committed record, and every
    record of another key, as it is. *)
Lemma MemoryStore_releaseLock_keeps_committed (key : jsstring)
      (s : gmap jsstring MemoryStore.Entry) (fp : jsstring) (result : value)
      (createdAt : Z) :
  s !! key = Some (MemoryStore.Committed fp result createdAt) ->
  MemoryStore.releaseLock key s = (Return tt, s).
Proof. intros H. unfold MemoryStore.releaseLock. rewrite H. reflexivity. Qed.

Lemma MemoryStore_releaseLock_frame (key key' : jsstring)
      (s : gmap jsstring MemoryStore.Entry) :
  key' <> key ->
  snd (MemoryStore.releaseLock key s) !! key' = s !! key'.
Proof.
  intros H. unfold MemoryStore.releaseLock.
  destruct (s !! key) as [[]|]; simpl; [apply lookup_delete_ne; auto| |]; reflexivity.
Qed.

(** The adapter unlinks the key whatever it holds. *)
Lemma RedisAdapter_releaseLock_unlinks (key : jsstring)
      (db : gmap jsstring RedisAdapter.Stored) :
  RedisAdapter.db
    (snd (RedisAdapter.releaseLock key
            {| RedisAdapter.db := db; RedisAdapter.unreachable := None |}))
  !! key = None.
Proof. simpl. apply lookup_delete_eq. Qed.

(** C4, at the failing input.  On a Redis server whose key holds a
    committed record, [releaseLock] of the adapter completes normally and
    the record is gone. *)
Theorem redis_releaseLock_removes_committed_record :
  RedisAdapter.db (Scenario.redisCommitted) !! js "idemp:test-key"
  = Some (Scenario.committedTable (js "fp123") Scenario.success 1700000000000)
  /\ fst (RedisAdapter.releaseLock (js "idemp:test-key") Scenario.redisCommitted)
     = Return tt
  /\ RedisAdapter.db
       (snd (RedisAdapter.releaseLock (js "idemp:test-key") Scenario.redisCommitted))
     !! js "idemp:test-key" = None.
Proof.
  split_and!.
  - apply lookup_singleton_eq.
  - reflexivity.
  - apply RedisAdapter_releaseLock_unlinks.
Qed.

(** The same defect seen from the engine: over the Redis adapter the
    record committed by a first call is unlinked by the release that ends
    the call, and a second call with the same key and fingerprint invokes
    the handler again. *)
Lemma redis_duplicate_call_invokes_handler_again :
  RedisAdapter.db (records (Scenario.redisAfterFirstCall (js "k1") (js "fp")))
  !! js "k1" = None
  /\ handlerCalls (Scenario.redisAfterFirstCall (js "k1") (js "fp")) = 1%nat
  /\ handlerCalls
       (snd (execute Scenario.redisEngine (js "k1") (js "fp")
               (Resolves Scenario.success) None
               (Scenario.redisAfterFirstCall (js "k1") (js "fp"))))
     = 2%nat
  /\ actions
       (sinkCalls
          (snd (execute Scenario.redisEngine (js "k1") (js "fp")
                  (Resolves Scenario.success) None
                  (Scenario.redisAfterFirstCall (js "k1") (js "fp")))))
     = [AuditEvent.acquired; AuditEvent.stored; AuditEvent.lock_released;
        AuditEvent.acquired; AuditEvent.stored; AuditEvent.lock_released].
Proof. split_and!; vm_compute; reflexivity. Qed.

(** ** Sorting the entries of an object *)

Section Sorting.
Context {V : Type} (le : jsstring -> jsstring -> bool).
Implicit Types l : list (jsstring * V).

Lemma insertBy_Permutation x l : Permutation (insertBy le x l) (x :: l).
Proof.
  induction l as [|y l IH]; simpl; [reflexivity|].
  destruct (le (fst x) (fst y)); [reflexivity|].
  rewrite IH. apply perm_swap.
Qed.

Lemma sortBy_Permutation l : Permutation (sortBy le l) l.
Proof.
  induction l as [|x l IH]; simpl; [reflexivity|].
  rewrite insertBy_Permutation. constructor. exact IH.
Qed.

Hypothesis le_total : forall a b, le a b = true \/ le b a = true.
Hypothesis le_trans : forall a b c, le a b = true -> le b c = true -> le a c = true.

Lemma insertBy_sorted x l :
  StronglySorted (entryLe le) l -> StronglySorted (entryLe le) (insertBy le x l).
Proof.
  induction 1 as [|y l Hs IH Hall]; simpl.
  - repeat constructor.
  - destruct (le (fst x) (fst y)) eqn:E.
    + constructor; [constructor; assumption|].
      constructor; [exact E|].
      eapply Forall_impl; [exact Hall|]. intros q Hq.
      unfold entryLe in *. eauto.
    + constructor; [exact IH|].
      rewrite insertBy_Permutation. constructor; [|exact Hall].
      unfold entryLe. destruct (le_total (fst x) (fst y)) as [H|H]; congruence.
Qed.

Lemma sortBy_sorted l : StronglySorted (entryLe le) (sortBy le l).
Proof.
  induction l as [|x l IH]; simpl; [constructor|].
  apply insertBy_sorted. exact IH.
Qed.

Hypothesis le_antisym : forall a b, le a b = true -> le b a = true -> a = b.



End Sorting.

Section KeyPreserving.
Context {V W : Type} (f : V -> W).

Lemma keys_onValues (l : list (jsstring * V)) : keys (map (onValues f) l) = keys l.
Proof. unfold keys. rewrite map_map. reflexivity. Qed.

Lemma insertBy_onValues le x (l : list (jsstring * V)) :
  insertBy le ((onValues f) x) (map (onValues f) l) = map (onValues f) (insertBy le x l).
Proof.
  induction l as [|y l IH]; simpl; [reflexivity|].
  destruct (le (fst x) (fst y)); simpl; [reflexivity|]. rewrite IH. reflexivity.
Qed.

Lemma sortBy_onValues le (l : list (jsstring * V)) :
  sortBy le (map (onValues f) l) = map (onValues f) (sortBy le l).
Proof.
  induction l as [|x l IH]; simpl; [reflexivity|].
  rewrite IH. apply insertBy_onValues.
Qed.

Lemma filter_onValues (test : jsstring -> bool) (l : list (jsstring * V)) :
  List.filter (fun p => test (fst p)) (map (onValues f) l)
  = map (onValues f) (List.filter (fun p => test (fst p)) l).
Proof.
  induction l as [|x l IH]; simpl; [reflexivity|].
  destruct (test (fst x)); simpl; rewrite IH; reflexivity.
Qed.

Lemma ownEntries_onValues (l : list (jsstring * V)) :
  ownEntries (map (onValues f) l) = map (onValues f) (ownEntries l).
Proof.
  unfold ownEntries.
  rewrite (filter_onValues isArrayIndex),
    (filter_onValues (fun k => negb (isArrayIndex k))), sortBy_onValues, map_app.
  reflexivity.
Qed.

End KeyPreserving.

Section OwnEntries.
Context {V : Type}.
Implicit Types l : list (jsstring * V).

Lemma filter_partition_Permutation (test : jsstring * V -> bool) l :
  Permutation (List.filter test l ++ List.filter (fun p => negb (test p)) l) l.
Proof.
  induction l as [|x l IH]; simpl; [reflexivity|].
  destruct (test x); simpl.
  - constructor. exact IH.
  - rewrite <- Permutation_middle. constructor. exact IH.
Qed.

Lemma ownEntries_Permutation l : Permutation (ownEntries l) l.
Proof.
  unfold ownEntries. rewrite sortBy_Permutation.
  apply (filter_partition_Permutation (fun p => isArrayIndex (fst p))).
Qed.

Lemma setProperty_fresh k (v : V) l :
  ~ In k (keys l) -> setProperty k v l = l ++ [(k, v)].
Proof.
  induction l as [|[k' v'] l IH]; simpl; intros H; [reflexivity|].
  destruct (decide (k' = k)) as [->|_]; [destruct H; auto|].
  rewrite IH by auto. reflexivity.
Qed.

Lemma fold_setProperty_fresh (es : list (jsstring * V)) : forall acc,
  NoDup (keys (acc ++ es)) ->
  fold_left (fun o e => setProperty (fst e) (snd e) o) es acc = acc ++ es.
Proof.
  induction es as [|[k v] es IH]; intros acc Hnd; simpl.
  - rewrite app_nil_r. reflexivity.
  - rewrite setProperty_fresh.
    + rewrite IH; rewrite <- app_assoc; [reflexivity|exact Hnd].
    + unfold keys in *. rewrite map_app in Hnd. simpl in Hnd.
      apply NoDup_app in Hnd as (_ & Hdisj & _).
      intros Hin. apply (Hdisj k); [apply list_elem_of_In; exact Hin|left].
Qed.

Lemma fromEntries_distinct (es : list (jsstring * V)) : NoDup (keys es) -> fromEntries es = es.
Proof. intros H. unfold fromEntries. rewrite fold_setProperty_fresh; auto. Qed.

End OwnEntries.

(** [JSON.stringify] on an object, in the order of the language: the
    properties are enumerated, and the text of each value is computed as it
    is written. *)
Lemma stringify_VObj (ps : list (jsstring * value)) :
  stringify (VObj ps)
  = Some (js "{"
             ++ join (js ",")
                  (omap (fun p : jsstring * value =>
                           match stringify (snd p) with
                           | Some t => Some (quote (fst p) ++ js ":" ++ t)
                           | None => None
                           end)
                        (ownEntries ps))
             ++ js "}").
Proof.
  change (stringify (VObj ps))
    with (Some (js "{"
                   ++ join (js ",")
                        (omap (fun e : jsstring * option jsstring =>
                                 match snd e with
                                 | Some t => Some (quote (fst e) ++ js ":" ++ t)
                                 | None => None
                                 end)
                              (ownEntries (map (onValues stringify) ps)))
                   ++ js "}")).
  rewrite ownEntries_onValues.
  assert (H : forall l : list (jsstring * value),
             omap (fun e : jsstring * option jsstring =>
                     match snd e with
                     | Some t => Some (quote (fst e) ++ js ":" ++ t)
                     | None => None
                     end)
                  (map (onValues stringify) l)
             = omap (fun p : jsstring * value =>
                       match stringify (snd p) with
                       | Some t => Some (quote (fst p) ++ js ":" ++ t)
                       | None => None
                       end) l).
  { induction l as [|p l IH]; [reflexivity|].
    cbn [map omap list_omap onValues fst snd]. rewrite <- IH. reflexivity. }
  rewrite H. reflexivity.
Qed.

(** ** Induction on values *)

Section ValueInduction.
Variable P : value -> Prop.
Hypothesis Hundefined : P VUndefined.
Hypothesis Hnull : P VNull.
Hypothesis Hbool : forall b, P (VBool b).
Hypothesis Hnum : forall n, P (VNum n).
Hypothesis Hstr : forall s, P (VStr s).
Hypothesis Harr : forall xs, Forall P xs -> P (VArr xs).
Hypothesis Hobj : forall ps, Forall (fun p => P (snd p)) ps -> P (VObj ps).


End ValueInduction.





(** ** The fingerprint *)

Section FingerprintProperties.
Context {host : Host}.

(** [normalize] on an object, in the order of the source: the entries are
    enumerated, sorted, and then their values normalized. *)
Lemma normalize_VObj ps :
  normalize (VObj ps)
  = VObj (fromEntries
            (map (fun p => (fst p, normalize (snd p)))
                 (sortBy byLocale (ownEntries ps)))).
Proof.
  change (normalize (VObj ps))
    with (VObj (fromEntries
                  (sortBy byLocale (ownEntries (map (onValues normalize) ps))))).
  rewrite ownEntries_onValues, sortBy_onValues. reflexivity.
Qed.

Hypothesis localeCompare_total :
  forall a b, localeCompare a b <= 0 \/ localeCompare b a <= 0.
Hypothesis localeCompare_trans :
  forall a b c, localeCompare a b <= 0 -> localeCompare b c <= 0 -> localeCompare a c <= 0.
Hypothesis localeCompare_separates :
  forall a b, localeCompare a b <= 0 -> localeCompare b a <= 0 -> a = b.

Lemma byLocale_total a b : byLocale a b = true \/ byLocale b a = true.
Proof. unfold byLocale. destruct (localeCompare_total a b); [left|right]; lia. Qed.

Lemma byLocale_trans a b c :
  byLocale a b = true -> byLocale b c = true -> byLocale a c = true.
Proof.
  unfold byLocale. intros H1 H2.
  apply Z.leb_le. apply (localeCompare_trans a b c); lia.
Qed.




End FingerprintProperties.

(** ** The order in which the keys of a normalized payload are written *)

Section KeyLists.
Context {V : Type}.
Implicit Types l : list (jsstring * V).






End KeyLists.

Lemma indexLe_total a b : indexLe a b = true \/ indexLe b a = true.
Proof. unfold indexLe. rewrite !N.leb_le. lia. Qed.

Lemma indexLe_trans a b c : indexLe a b = true -> indexLe b c = true -> indexLe a c = true.
Proof. unfold indexLe. rewrite !N.leb_le. lia. Qed.

Section WrittenOrder.
Context {host : Host}.
Hypothesis localeCompare_total :
  forall a b, localeCompare a b <= 0 \/ localeCompare b a <= 0.
Hypothesis localeCompare_trans :
  forall a b c, localeCompare a b <= 0 -> localeCompare b c <= 0 -> localeCompare a c <= 0.



End WrittenOrder.

(** ** The order of the code units *)

Lemma codeUnitCompare_refl a : codeUnitCompare a a = 0.
Proof.
  induction a as [|x a IH]; simpl; [reflexivity|].
  rewrite N.ltb_irrefl. exact IH.
Qed.

Lemma codeUnitCompare_total a : forall b,
  codeUnitCompare a b <= 0 \/ codeUnitCompare b a <= 0.
Proof.
  induction a as [|x a IH]; intros [|y b]; simpl; try lia.
  destruct (N.ltb_spec x y), (N.ltb_spec y x); try lia. apply IH.
Qed.


Lemma codeUnitCompare_trans a : forall b c,
  codeUnitCompare a b <= 0 -> codeUnitCompare b c <= 0 -> codeUnitCompare a c <= 0.
Proof.
  induction a as [|x a IH]; intros [|y b] [|z c]; simpl; try lia.
  destruct (N.ltb_spec x y), (N.ltb_spec y x), (N.ltb_spec y z), (N.ltb_spec z y),
    (N.ltb_spec x z), (N.ltb_spec z x); try lia.
  apply IH.
Qed.

(** ** Stability of the fingerprint *)

Section StableFingerprint.
Context {host : Host} {S A : Type} (this : t S A).


End StableFingerprint.




(** Why the collation must tell distinct keys apart: on a host for which
    two canonically equivalent keys compare equal, the stable sort keeps
    them in their order of creation and the two orders of creation give two
    fingerprints. *)
Lemma canonically_equivalent_keys_keep_creation_order :
  localeCompare (Host := Scenario.canonicalHost) [233%N] [101%N; 769%N] = 0
  /\ sameUpToKeyOrder Scenario.accentPayload Scenario.accentPayloadReordered
  /\ distinctKeys Scenario.accentPayload
  /\ fingerprint (host := Scenario.canonicalHost)
                 (Scenario.memoryEngine Scenario.quietSink) Scenario.accentPayload
     <> fingerprint (host := Scenario.canonicalHost)
                    (Scenario.memoryEngine Scenario.quietSink)
                    Scenario.accentPayloadReordered.
Proof.
  split_and!.
  - vm_compute. reflexivity.
  - eapply SameObject; [|apply perm_swap].
    repeat constructor.
  - simpl. split_and!; try exact I.
    apply NoDup_ListNoDup; repeat constructor; simpl; intuition discriminate.
  - vm_compute. discriminate.
Qed.

(** ** The scenarios of the test suites

    The model evaluated on the cases of [engine.test.ts] and of the tests
    of the Redis adapter. *)

(** Empty and blank keys are rejected before the store is reached. *)
Example invalid_keys_are_rejected :
  map (fun key =>
         option_map (fun c => (c, handlerCalls Scenario.freshMemory))
           (errClass match fst (execute (Scenario.memoryEngine Scenario.quietSink) key
                                  (js "fp") (Resolves Scenario.success) None
                                  Scenario.freshMemory) with
                     | Throw e => e
                     | Return v => Primitive v
                     end))
      [js ""; js "   "]
  = [Some (InvalidIdempotencyKeyError, 0%nat); Some (InvalidIdempotencyKeyError, 0%nat)].
Proof. vm_compute. reflexivity. Qed.

(** [should validate retentionOverride] *)
Example short_retention_override_is_rejected :
  errClass match fst (execute (Scenario.memoryEngine Scenario.quietSink)
                        (js "override-key") (js "fp") (Resolves Scenario.success)
                        (Some {| ExecuteOptions.onAudit := None; ExecuteOptions.handlerTimeout := None;
                                 ExecuteOptions.retentionOverride := Some 1000; ExecuteOptions.metadata := None |})
                        Scenario.freshMemory) with
           | Throw e => e
           | Return v => Primitive v
           end
  = Some InvalidRetentionError.
Proof. vm_compute. reflexivity. Qed.

(** [should enforce 24h minimum retention] and [should enforce lockTtl
    between 50ms and 5m] *)
Example constructor_validates_options :
  (match new MemoryStore.store
           {| EngineOptions.lockTtl := 30000; EngineOptions.retention := 1000;
              EngineOptions.onAudit := Some Scenario.quietSink;
              EngineOptions.fingerprintAlgorithm := None; EngineOptions.keyPrefix := None |} with
   | Throw e => errClass e
   | Return _ => None
   end,
   match new MemoryStore.store
           {| EngineOptions.lockTtl := 600000; EngineOptions.retention := 86400000;
              EngineOptions.onAudit := Some Scenario.quietSink;
              EngineOptions.fingerprintAlgorithm := None; EngineOptions.keyPrefix := None |} with
   | Throw e => errMessage e
   | Return _ => None
   end,
   match new MemoryStore.store
           {| EngineOptions.lockTtl := 30000; EngineOptions.retention := 86400000;
              EngineOptions.onAudit := Some Scenario.quietSink;
              EngineOptions.fingerprintAlgorithm := None; EngineOptions.keyPrefix := None |} with
   | Throw _ => None
   | Return this => Some (options this)
   end)
  = (Some InvalidRetentionError,
     Some (js "lockTtl must be between 50ms and 5m (got 600000ms)"),
     Some (Scenario.testOptions Scenario.quietSink)).
Proof. vm_compute. reflexivity. Qed.

(** Scenario S3: while a first call holds the lock, a second call is
    rejected with [OperationInProgressError] and audited as [locked]. *)
Example concurrent_call_is_rejected :
  (errClass match fst (execute (Scenario.memoryEngine Scenario.quietSink)
                         (js "k3") (js "fp") (Resolves Scenario.success) None
                         (Scenario.world
                            {[ js "k3" := MemoryStore.Processing 1700000000000 30000 ]}
                            [])) with
            | Throw e => e
            | Return v => Primitive v
            end,
   actions (emitted (execute (Scenario.memoryEngine Scenario.quietSink)
                       (js "k3") (js "fp") (Resolves Scenario.success) None)
                    (Scenario.world
                       {[ js "k3" := MemoryStore.Processing 1700000000000 30000 ]}
                       [])),
   invocations (execute (Scenario.memoryEngine Scenario.quietSink)
                  (js "k3") (js "fp") (Resolves Scenario.success) None)
               (Scenario.world
                  {[ js "k3" := MemoryStore.Processing 1700000000000 30000 ]} []))
  = (Some OperationInProgressError, [AuditEvent.locked], 0%nat).
Proof. vm_compute. reflexivity. Qed.

(** Scenario S4: a handler that does not settle within [handlerTimeout]
    fails the call with [HandlerTimeoutError]; the events are [acquired],
    [timeout], [lock_released], and the key has no record afterwards. *)
Example handler_timeout_releases_lock :
  (errClass match fst (execute (Scenario.memoryEngine Scenario.quietSink)
                         (js "k4") (js "fp") Pending
                         (Some {| ExecuteOptions.onAudit := None; ExecuteOptions.handlerTimeout := Some 50;
                                  ExecuteOptions.retentionOverride := None; ExecuteOptions.metadata := None |})
                         Scenario.freshMemory) with
            | Throw e => e
            | Return v => Primitive v
            end,
   actions (emitted (execute (Scenario.memoryEngine Scenario.quietSink)
                       (js "k4") (js "fp") Pending
                       (Some {| ExecuteOptions.onAudit := None; ExecuteOptions.handlerTimeout := Some 50;
                                ExecuteOptions.retentionOverride := None; ExecuteOptions.metadata := None |}))
                    Scenario.freshMemory),
   records (snd (execute (Scenario.memoryEngine Scenario.quietSink)
                   (js "k4") (js "fp") Pending
                   (Some {| ExecuteOptions.onAudit := None; ExecuteOptions.handlerTimeout := Some 50;
                            ExecuteOptions.retentionOverride := None; ExecuteOptions.metadata := None |})
                   Scenario.freshMemory)) !! js "k4")
  = (Some HandlerTimeoutError,
     [AuditEvent.acquired; AuditEvent.timeout; AuditEvent.lock_released],
     None).
Proof. vm_compute. reflexivity. Qed.

(** [should handle handler errors gracefully]: the error of the handler is
    the completion of the call, and its message and name are in the
    metadata of the [error] event. *)
Example handler_error_is_propagated :
  (fst (execute (Scenario.memoryEngine Scenario.quietSink) (js "error-key") (js "fp")
          (Rejects (new_Error (js "Handler failed"))) None Scenario.freshMemory),
   map (fun c => (AuditEvent.action (snd c), AuditEvent.metadata (snd c)))
       (emitted (execute (Scenario.memoryEngine Scenario.quietSink) (js "error-key")
                   (js "fp") (Rejects (new_Error (js "Handler failed"))) None)
                Scenario.freshMemory))
  = (Throw (new_Error (js "Handler failed")),
     [ (AuditEvent.acquired, None);
       (AuditEvent.error,
        Some [(js "error", VStr (js "Handler failed"));
              (js "errorCode", VStr (js "Error"))]);
       (AuditEvent.lock_released, None) ]).
Proof. vm_compute. reflexivity. Qed.

(** Scenario S6: with the prefix [test-prefix:] every event of a call with
    the key [my-key] carries the key [test-prefix:my-key]. *)
Example key_prefix_is_applied :
  map (fun c => AuditEvent.key (snd c))
      (emitted (execute {| store := MemoryStore.store;
                           options := {| lockTtl := 30000; retention := 86400000;
                                         onAudit := Scenario.quietSink;
                                         fingerprintAlgorithm := js "sha256";
                                         keyPrefix := js "test-prefix:" |} |}
                  (js "my-key") (js "fp") (Resolves Scenario.success) None)
               Scenario.freshMemory)
  = [js "test-prefix:my-key"; js "test-prefix:my-key"; js "test-prefix:my-key"].
Proof. vm_compute. reflexivity. Qed.

(** [should use per-request audit override]: the callback of the call
    receives the events, the callback of the engine none. *)
Example call_level_sink_replaces_engine_sink :
  map fst
      (emitted (execute (Scenario.memoryEngine Scenario.quietSink)
                  (js "override-audit-key") (js "fp") (Resolves Scenario.success)
                  (Some {| ExecuteOptions.onAudit := Some Scenario.brokenSink; ExecuteOptions.handlerTimeout := None;
                           ExecuteOptions.retentionOverride := None;
                           ExecuteOptions.metadata := Some [(js "custom", VStr (js "value"))] |}))
               Scenario.freshMemory)
  = [sinkId Scenario.brokenSink; sinkId Scenario.brokenSink; sinkId Scenario.brokenSink].
Proof. vm_compute. reflexivity. Qed.

(** The tests of the adapter: a new key is acquired, a second request is
    locked, and after the commit the result exists. *)
Example redis_adapter_lifecycle :
  let fresh := {| RedisAdapter.db := ∅; RedisAdapter.unreachable := None |} in
  let locked := snd (RedisAdapter.atomicCheckAndLock (js "idemp:test-key") (js "fp123")
                       5000 1700000000000 fresh) in
  let committed := snd (RedisAdapter.commitResult (js "idemp:test-key") (js "fp123")
                          Scenario.success 10000 1700000000001 locked) in
  (fst (RedisAdapter.atomicCheckAndLock (js "idemp:test-key") (js "fp123") 5000
          1700000000000 fresh),
   fst (RedisAdapter.atomicCheckAndLock (js "idemp:test-key") (js "fp123") 5000
          1700000000001 locked),
   fst (RedisAdapter.commitResult (js "idemp:test-key") (js "fp123") Scenario.success
          10000 1700000000001 locked),
   fst (RedisAdapter.atomicCheckAndLock (js "idemp:test-key") (js "fp123") 5000
          1700000000002 committed),
   fst (RedisAdapter.commitResult (js "idemp:test-key") (js "fp123") Scenario.success
          10000 1700000000003 committed))
  = (Return Acquired, Return Locked, Return tt,
     Return (Exists (js "fp123") Scenario.success 1700000000001),
     Throw (RedisAdapter.storeError
              (js "Failed to commit result: lock expired or already committed"))).
Proof. vm_compute. reflexivity. Qed.

(** Scenario S5: the three orders of the keys a, b, c give one fingerprint,
    and the order of the elements of an array is kept. *)
Example key_order_does_not_change_fingerprint :
  let fp := fingerprint (host := Scenario.codeUnitHost)
                        (Scenario.memoryEngine Scenario.quietSink) in
  fp (VObj [(js "a", VNum 1); (js "b", VNum 2); (js "c", VNum 3)])
  = fp (VObj [(js "c", VNum 3); (js "b", VNum 2); (js "a", VNum 1)])
  /\ fp (VObj [(js "c", VNum 3); (js "b", VNum 2); (js "a", VNum 1)])
     = fp (VObj [(js "b", VNum 2); (js "a", VNum 1); (js "c", VNum 3)])
  /\ fp (VObj [(js "items", VArr [VNum 1; VNum 2; VNum 3])])
     <> fp (VObj [(js "items", VArr [VNum 3; VNum 2; VNum 1])]).
Proof. split_and!; vm_compute; [reflexivity | reflexivity | discriminate]. Qed.

(* ===================================================================== *)
(** * Part III.  Further properties of the engine and of the stores       *)
(* ===================================================================== *)

(** ** The constructor *)


(** ** Calls rejected by the validation *)

Section Validation.
Context {S A : Type} (this : t S A).


End Validation.


(** ** The three outcomes of the atomic probe *)

Section Outcomes.
Context {S A : Type} (this : t S A).

(** X3.  When the store answers [exists] or [locked], the call neither
    invokes the handler nor calls the store again: the key records are the
    ones the probe left.  An [exists] with the fingerprint of the call
    returns the stored result; with another fingerprint the call fails with
    a [FingerprintMismatchError] (status 422); a [locked] fails with an
    [OperationInProgressError] (status 409). *)
Theorem cache_path_only_probes (key fp : jsstring) (handler : HandlerOutcome)
        (opts : option ExecuteOptions.t) (w : World S A) (c : CheckResult) (s1 : S) :
  trim key <> [] ->
  50 <= default 30000 (opts ≫= ExecuteOptions.handlerTimeout) <= 300000 ->
  86400000 <= default (retention (options this))
                      (opts ≫= ExecuteOptions.retentionOverride) ->
  atomicCheckAndLock (store this) (keyPrefix (options this) ++ trim key) fp
    (lockTtl (options this)) (clock w) (records w) = (Return c, s1) ->
  c <> Acquired ->
  records (snd (execute this key fp handler opts w)) = s1
  /\ handlerCalls (snd (execute this key fp handler opts w)) = handlerCalls w
  /\ match c with
     | Exists storedFp result _ =>
         if bool_decide (storedFp = fp)
         then fst (execute this key fp handler opts w) = Return result
         else exists e, fst (execute this key fp handler opts w) = Throw e
                        /\ (errClass e, errStatus e, errCode e)
                           = (Some FingerprintMismatchError, Some 422,
                              Some (js "FINGERPRINT_MISMATCH"))
     | _ => exists e, fst (execute this key fp handler opts w) = Throw e
                      /\ (errClass e, errStatus e, errCode e)
                         = (Some OperationInProgressError, Some 409,
                            Some (js "OPERATION_IN_PROGRESS"))
     end.
Proof.
  intros Hk Ht Hr Hcheck Hc.
  pass_validation Hk Ht Hr. exec_unfold; world_simpl. rewrite Hcheck. world_simpl.
  destruct c as [storedFp result createdAt| |]; [| |contradiction].
  - destruct (decide (storedFp = fp)) as [->|Hne].
    + rewrite bool_decide_false by (intros H; apply H; reflexivity).
      rewrite bool_decide_true by reflexivity.
      exec_paths. split_and!; congruence.
    + rewrite bool_decide_true by exact Hne.
      rewrite bool_decide_false by exact Hne.
      exec_paths. split_and!; [congruence | congruence | eexists; split; reflexivity].
  - exec_paths. split_and!; [congruence | congruence | eexists; split; reflexivity].
Qed.

(** X4.  When the lock was acquired and the handler does not resolve (it
    rejects, or the timer fires first), the call completes as the race
    does, with the error of the handler itself or with a
    [HandlerTimeoutError] (status 503); [commitResult] is not called, the
    key records are those that [releaseLock] leaves, and the second event
    is [timeout] for a [HandlerTimeoutError] and [error] otherwise. *)
Theorem handler_failure_is_propagated (key fp : jsstring) (handler : HandlerOutcome)
        (opts : option ExecuteOptions.t) (w : World S A) (s1 : S) :
  trim key <> [] ->
  50 <= default 30000 (opts ≫= ExecuteOptions.handlerTimeout) <= 300000 ->
  86400000 <= default (retention (options this))
                      (opts ≫= ExecuteOptions.retentionOverride) ->
  atomicCheckAndLock (store this) (keyPrefix (options this) ++ trim key) fp
    (lockTtl (options this)) (clock w) (records w) = (Return Acquired, s1) ->
  (forall r, handler <> Resolves r) ->
  fst (execute this key fp handler opts w)
  = fst (raceHandler handler (default 30000 (opts ≫= ExecuteOptions.handlerTimeout)) w)
  /\ (exists e, fst (execute this key fp handler opts w) = Throw e
                /\ take 2 (actions (emitted (execute this key fp handler opts) w))
                   = [AuditEvent.acquired;
                      if instanceOf e HandlerTimeoutError
                      then AuditEvent.timeout else AuditEvent.error]
                /\ (handler = Pending ->
                    (errClass e, errStatus e, errCode e)
                    = (Some HandlerTimeoutError, Some 503,
                       Some (js "HANDLER_TIMEOUT"))))
  /\ handlerCalls (snd (execute this key fp handler opts w))
     = Datatypes.S (handlerCalls w)
  /\ records (snd (execute this key fp handler opts w))
     = match releaseLock (store this) with
       | Some release => snd (release (keyPrefix (options this) ++ trim key) s1)
       | None => s1
       end.
Proof.
  intros Hk Ht Hr Hcheck Hh. unfold emitted.
  pass_validation Hk Ht Hr. exec_unfold; world_simpl. rewrite Hcheck. world_simpl.
  destruct handler as [r|e|]; [destruct (Hh r); reflexivity| |];
    exec_paths; chains; rewrite ?drop_app_length;
    (split_and!;
     [ reflexivity
     | eexists; split_and!;
       [reflexivity | reflexivity | first [discriminate | reflexivity]]
     | reflexivity
     | first [ congruence
             | match goal with
               | E : ?f ?k (records ?w) = _, H : records ?w = _ |- _ =>
                   rewrite H in E; rewrite E; reflexivity
               end ] ]).
Qed.

(** X5.  A call returns a result only from the cache or from a committed
    handler: when [execute] returns [r], either the store answered
    [exists] with the fingerprint of the call and the result [r], or the
    lock was acquired, the handler resolved with [r] and [commitResult]
    succeeded with [r] under the fingerprint of the call. *)
Theorem returned_result_is_stored (key fp : jsstring) (handler : HandlerOutcome)
        (opts : option ExecuteOptions.t) (w : World S A) (r : value) :
  fst (execute this key fp handler opts w) = Return r ->
  (exists createdAt s1,
      atomicCheckAndLock (store this) (keyPrefix (options this) ++ trim key) fp
        (lockTtl (options this)) (clock w) (records w)
      = (Return (Exists fp r createdAt), s1)
      /\ handlerCalls (snd (execute this key fp handler opts w)) = handlerCalls w)
  \/ (exists s1 s2,
         atomicCheckAndLock (store this) (keyPrefix (options this) ++ trim key) fp
           (lockTtl (options this)) (clock w) (records w) = (Return Acquired, s1)
         /\ handler = Resolves r
         /\ commitResult (store this) (keyPrefix (options this) ++ trim key) fp r
              (default (retention (options this))
                       (opts ≫= ExecuteOptions.retentionOverride))
              (clock w) s1 = (Return tt, s2)).
Proof.
  unfold execute.
  destruct (_ || _); [discriminate|].
  destruct (_ || _); [discriminate|].
  destruct (_ <? _); [discriminate|].
  exec_paths; intros Hret; try discriminate Hret; injection Hret as <-.
  - left. apply bool_decide_eq_false in Heqb.
    match goal with
    | H : ¬ ?a ≠ fp |- _ =>
        assert (a = fp) as -> by (destruct (decide (a = fp)); tauto)
    end.
    do 2 eexists. split; [reflexivity|congruence].
  - right. do 2 eexists. split_and!; first [reflexivity | eassumption].
  - right. do 2 eexists. split_and!; first [reflexivity | eassumption].
  - right. do 2 eexists. split_and!; first [reflexivity | eassumption].
Qed.

End Outcomes.

(** Witness of X3: the second call of the test [should execute handler
    exactly once for duplicate requests], with a handler that would never
    resolve. *)
Lemma cache_path_only_probes_witness :
  records (snd (execute (Scenario.memoryEngine Scenario.quietSink) (js "k1") (js "fp")
                  Pending None (Scenario.afterFirstCall (js "k1") (js "fp"))))
  = records (Scenario.afterFirstCall (js "k1") (js "fp"))
  /\ handlerCalls (snd (execute (Scenario.memoryEngine Scenario.quietSink) (js "k1")
                          (js "fp") Pending None
                          (Scenario.afterFirstCall (js "k1") (js "fp"))))
     = handlerCalls (Scenario.afterFirstCall (js "k1") (js "fp"))
  /\ fst (execute (Scenario.memoryEngine Scenario.quietSink) (js "k1") (js "fp")
            Pending None (Scenario.afterFirstCall (js "k1") (js "fp")))
     = Return Scenario.success.
Proof.
  apply (cache_path_only_probes (Scenario.memoryEngine Scenario.quietSink) (js "k1")
           (js "fp") Pending None (Scenario.afterFirstCall (js "k1") (js "fp"))
           (Exists (js "fp") Scenario.success 1700000000000)
           (records (Scenario.afterFirstCall (js "k1") (js "fp")))).
  - vm_compute. discriminate.
  - vm_compute. split; discriminate.
  - vm_compute. discriminate.
  - vm_compute. reflexivity.
  - discriminate.
Defined.

(** Witness of X4: the handler of the test [should handle handler errors
    gracefully]. *)
Lemma handler_failure_is_propagated_witness :
  fst (execute (Scenario.memoryEngine Scenario.quietSink) (js "k1") (js "fp")
         (Rejects (new_Error (js "Handler failed"))) None Scenario.freshMemory)
  = Throw (new_Error (js "Handler failed"))
  /\ records (snd (execute (Scenario.memoryEngine Scenario.quietSink) (js "k1")
                     (js "fp") (Rejects (new_Error (js "Handler failed"))) None
                     Scenario.freshMemory))
     = ∅.
Proof.
  destruct (handler_failure_is_propagated (Scenario.memoryEngine Scenario.quietSink)
              (js "k1") (js "fp") (Rejects (new_Error (js "Handler failed"))) None
              Scenario.freshMemory
              {[ js "k1" := MemoryStore.Processing 1700000000000 30000 ]})
    as (Hc & _ & _ & Hs).
  - vm_compute. discriminate.
  - vm_compute. split; discriminate.
  - vm_compute. discriminate.
  - vm_compute. reflexivity.
  - discriminate.
  - split; [exact Hc|]. rewrite Hs. vm_compute. reflexivity.
Defined.

(** Witness of X5: a first call over [MemoryStore]. *)
Lemma returned_result_is_stored_witness :
  (exists createdAt s1,
      atomicCheckAndLock MemoryStore.store (js "k1") (js "fp") 30000 1700000000000 ∅
      = (Return (Exists (js "fp") Scenario.success createdAt), s1)
      /\ handlerCalls (snd (execute (Scenario.memoryEngine Scenario.quietSink) (js "k1")
                              (js "fp") (Resolves Scenario.success) None
                              Scenario.freshMemory))
         = 0%nat)
  \/ (exists s1 s2,
         atomicCheckAndLock MemoryStore.store (js "k1") (js "fp") 30000 1700000000000 ∅
         = (Return Acquired, s1)
         /\ Resolves Scenario.success = Resolves Scenario.success
         /\ commitResult MemoryStore.store (js "k1") (js "fp") Scenario.success
              86400000 1700000000000 s1 = (Return tt, s2)).
Proof.
  apply (returned_result_is_stored (Scenario.memoryEngine Scenario.quietSink) (js "k1")
           (js "fp") (Resolves Scenario.success) None Scenario.freshMemory
           Scenario.success).
  vm_compute. reflexivity.
Defined.

(** ** What a call may change in the store *)

Section StoreInvariant.
Context {S A : Type} (this : t S A) (Q : S -> Prop).

(** A call reaches the key records only through
    [atomicCheckAndLock], [commitResult] and [releaseLock], each at the
    prefixed and trimmed key, with the fingerprint of the call, the lock
    TTL of the engine and the retention of the call: a property of the
    records that these three calls preserve holds after [execute] when it
    held before. *)
Lemma execute_store_frame (key fp : jsstring) (handler : HandlerOutcome)
        (opts : option ExecuteOptions.t) (w : World S A) :
  (forall s, Q s ->
     Q (snd (atomicCheckAndLock (store this) (keyPrefix (options this) ++ trim key) fp
               (lockTtl (options this)) (clock w) s))) ->
  (forall r s, Q s ->
     Q (snd (commitResult (store this) (keyPrefix (options this) ++ trim key) fp r
               (default (retention (options this))
                        (opts ≫= ExecuteOptions.retentionOverride))
               (clock w) s))) ->
  (forall release s, releaseLock (store this) = Some release -> Q s ->
     Q (snd (release (keyPrefix (options this) ++ trim key) s))) ->
  Q (records w) ->
  Q (records (snd (execute this key fp handler opts w))).
Proof.
  intros Hcheck Hcommit Hrelease Hw. unfold execute.
  destruct (_ || _); [exact Hw|].
  destruct (_ || _); [exact Hw|].
  destruct (_ <? _); [exact Hw|].
  exec_paths.
  all: repeat match goal with
              | E : atomicCheckAndLock _ _ _ _ _ ?s = (_, ?s') |- _ =>
                  assert (Q s')
                    by (rewrite <- (f_equal snd E : _ = s'); apply (Hcheck s);
                        assumption);
                  clear E
              | E : commitResult _ _ _ ?r _ _ ?s = (_, ?s') |- _ =>
                  assert (Q s')
                    by (rewrite <- (f_equal snd E : _ = s'); apply (Hcommit r s);
                        assumption);
                  clear E
              | E : ?p _ ?s = (_, ?s'), R : releaseLock _ = Some ?p |- _ =>
                  assert (Q s')
                    by (rewrite <- (f_equal snd E : _ = s');
                        apply (Hrelease p s eq_refl); assumption);
                  clear E
              end.
  all: first [assumption | congruence].
Qed.

End StoreInvariant.

Ltac store_ops :=
  cbn [Scenario.onMemory store options MemoryStore.store RedisAdapter.store
       atomicCheckAndLock commitResult releaseLock];
  unfold MemoryStore.atomicCheckAndLock, MemoryStore.commitResult,
         MemoryStore.releaseLock, RedisAdapter.atomicCheckAndLock,
         RedisAdapter.commitResult, RedisAdapter.releaseLock,
         RedisAdapter.CHECK_AND_LOCK, RedisAdapter.COMMIT_RESULT.

Ltac case_record :=
  match goal with
  | |- context [match ?x with _ => _ end] =>
      match x with
      | _ !! _ => let E := fresh "Erecord" in destruct x as [[]|] eqn:E
      end
  end.

(** X6.  Over [MemoryStore] a call reads and writes the record of its own
    key only: the record of every other key is after the call what it was
    before, however the call ends. *)
Theorem memory_call_touches_only_its_key (o : Options) (key fp : jsstring)
        (handler : HandlerOutcome) (opts : option ExecuteOptions.t)
        (w : World (gmap jsstring MemoryStore.Entry) (list AuditEvent.t))
        (other : jsstring) :
  other <> keyPrefix o ++ trim key ->
  records (snd (execute (Scenario.onMemory o) key fp handler opts w)) !! other
  = records w !! other.
Proof.
  intros Hne.
  apply (execute_store_frame (Scenario.onMemory o)
           (fun s => s !! other = records w !! other)); [| | |reflexivity].
  - intros s Hs. store_ops.
    case_record; cbn [snd]; [exact Hs|exact Hs|].
    rewrite lookup_insert_ne by congruence. exact Hs.
  - intros r s Hs. store_ops.
    case_record; cbn [snd]; [|exact Hs|exact Hs].
    rewrite lookup_insert_ne by congruence. exact Hs.
  - intros release s [= <-] Hs.
    rewrite MemoryStore_releaseLock_frame by exact Hne. exact Hs.
Qed.

(** Witness of X6: a call on [key-2] after a call on [key-1]. *)
Lemma memory_call_touches_only_its_key_witness :
  records (snd (execute (Scenario.onMemory (Scenario.testOptions Scenario.quietSink))
                  (js "key-2") (js "fp2") Pending None
                  (Scenario.afterFirstCall (js "key-1") (js "fp1"))))
  !! js "key-1"
  = records (Scenario.afterFirstCall (js "key-1") (js "fp1")) !! js "key-1".
Proof.
  apply (memory_call_touches_only_its_key (Scenario.testOptions Scenario.quietSink)
           (js "key-2") (js "fp2") Pending None
           (Scenario.afterFirstCall (js "key-1") (js "fp1")) (js "key-1")).
  vm_compute. discriminate.
Defined.

(** X7.  Over the Redis adapter too: a call leaves every other key of the
    server as it was, and does not change whether the server can be
    reached. *)
Theorem redis_call_touches_only_its_key (o : Options) (key fp : jsstring)
        (handler : HandlerOutcome) (opts : option ExecuteOptions.t)
        (w : World RedisAdapter.Redis unit) (other : jsstring) :
  other <> keyPrefix o ++ trim key ->
  RedisAdapter.db
    (records (snd (execute {| store := RedisAdapter.store; options := o |}
                     key fp handler opts w))) !! other
  = RedisAdapter.db (records w) !! other
  /\ RedisAdapter.unreachable
       (records (snd (execute {| store := RedisAdapter.store; options := o |}
                        key fp handler opts w)))
     = RedisAdapter.unreachable (records w).
Proof.
  intros Hne.
  apply (execute_store_frame {| store := RedisAdapter.store; options := o |}
           (fun s => RedisAdapter.db s !! other = RedisAdapter.db (records w) !! other
                     /\ RedisAdapter.unreachable s
                        = RedisAdapter.unreachable (records w)));
    [| | |split; reflexivity].
  - intros s [Hs Hu]. store_ops.
    destruct (RedisAdapter.unreachable s) eqn:E; cbn [snd]; [rewrite E; auto|].
    case_record;
      try match goal with
          | |- context [match ?status with Some _ => _ | None => _ end] =>
              destruct status
          end;
      try destruct (bool_decide _);
      cbn [snd RedisAdapter.db RedisAdapter.unreachable];
      rewrite ?lookup_insert_ne by congruence; auto.
  - intros r s [Hs Hu]. store_ops.
    destruct (RedisAdapter.unreachable s) eqn:E; cbn [snd]; [rewrite E; auto|].
    case_record; try destruct (bool_decide _);
      cbn [snd RedisAdapter.db RedisAdapter.unreachable];
      rewrite ?lookup_insert_ne by congruence; auto.
  - intros release s [= <-] [Hs Hu]. unfold RedisAdapter.releaseLock.
    destruct (RedisAdapter.unreachable s) eqn:E;
      cbn [snd RedisAdapter.db RedisAdapter.unreachable]; [rewrite E; auto|].
    rewrite lookup_delete_ne by (intros X; apply Hne; symmetry; exact X). auto.
Qed.

(** Witness of X7: a call on another key of a server that holds a
    committed record. *)
Lemma redis_call_touches_only_its_key_witness :
  RedisAdapter.db
    (records (snd (execute {| store := RedisAdapter.store;
                              options := Scenario.testOptions Scenario.quietSink |}
                     (js "k1") (js "fp") (Resolves Scenario.success) None
                     (Scenario.world Scenario.redisCommitted tt))))
  !! js "idemp:test-key"
  = RedisAdapter.db Scenario.redisCommitted !! js "idemp:test-key"
  /\ RedisAdapter.unreachable
       (records (snd (execute {| store := RedisAdapter.store;
                                 options := Scenario.testOptions Scenario.quietSink |}
                        (js "k1") (js "fp") (Resolves Scenario.success) None
                        (Scenario.world Scenario.redisCommitted tt))))
     = RedisAdapter.unreachable Scenario.redisCommitted.
Proof.
  apply (redis_call_touches_only_its_key (Scenario.testOptions Scenario.quietSink)
           (js "k1") (js "fp") (Resolves Scenario.success) None
           (Scenario.world Scenario.redisCommitted tt) (js "idemp:test-key")).
  vm_compute. discriminate.
Defined.

(** ** A failed call, and a completed call over Redis *)

Section Retry.
Context (o : Options).

Lemma memory_failed_call (key fp : jsstring) (handler : HandlerOutcome)
      (opts : option ExecuteOptions.t)
      (w : World (gmap jsstring MemoryStore.Entry) (list AuditEvent.t)) :
  trim key <> [] ->
  50 <= default 30000 (opts ≫= ExecuteOptions.handlerTimeout) <= 300000 ->
  86400000 <= default (retention o) (opts ≫= ExecuteOptions.retentionOverride) ->
  records w !! (keyPrefix o ++ trim key : jsstring) = None ->
  (forall r, handler <> Resolves r) ->
  records (snd (execute (Scenario.onMemory o) key fp handler opts w)) = records w
  /\ clock (snd (execute (Scenario.onMemory o) key fp handler opts w)) = clock w
  /\ handlerCalls (snd (execute (Scenario.onMemory o) key fp handler opts w))
     = Datatypes.S (handlerCalls w).
Proof.
  intros Hk Ht Hr Hnone Hh.
  unfold execute. cbn [Scenario.onMemory options].
  rewrite (key_accepted _ Hk), (timeout_accepted _ Ht), (retention_accepted _ Hr).
  exec_unfold; world_simpl. store_ops.
  rewrite Hnone. world_simpl.
  audit_step. exec_unfold; world_simpl.
  destruct handler as [r|e|]; [destruct (Hh r); reflexivity| |];
    audit_step; exec_unfold; world_simpl; store_ops;
    rewrite lookup_insert_eq; world_simpl;
    audit_step; exec_unfold; world_simpl;
    rewrite delete_insert_id by exact Hnone;
    split_and!; congruence.
Qed.

(** X8.  Over [MemoryStore] a call whose handler rejects or times out
    leaves the key records as they were, the lock it took removed; a later
    call with the same key, whatever its fingerprint, acquires the lock
    again, invokes its handler and returns its result. *)
Theorem failed_call_can_be_retried (key fp fp' : jsstring) (handler : HandlerOutcome)
        (r : value) (opts opts' : option ExecuteOptions.t)
        (w : World (gmap jsstring MemoryStore.Entry) (list AuditEvent.t)) :
  trim key <> [] ->
  50 <= default 30000 (opts ≫= ExecuteOptions.handlerTimeout) <= 300000 ->
  86400000 <= default (retention o) (opts ≫= ExecuteOptions.retentionOverride) ->
  50 <= default 30000 (opts' ≫= ExecuteOptions.handlerTimeout) <= 300000 ->
  86400000 <= default (retention o) (opts' ≫= ExecuteOptions.retentionOverride) ->
  records w !! (keyPrefix o ++ trim key : jsstring) = None ->
  (forall r, handler <> Resolves r) ->
  records (snd (execute (Scenario.onMemory o) key fp handler opts w)) = records w
  /\ fst (execute (Scenario.onMemory o) key fp' (Resolves r) opts'
            (snd (execute (Scenario.onMemory o) key fp handler opts w)))
     = Return r
  /\ invocations (execute (Scenario.onMemory o) key fp' (Resolves r) opts')
       (snd (execute (Scenario.onMemory o) key fp handler opts w)) = 1%nat.
Proof.
  intros Hk Ht Hr Ht' Hr' Hnone Hh.
  destruct (memory_failed_call key fp handler opts w Hk Ht Hr Hnone Hh)
    as (Hrec & Hclk & Hhc).
  split; [exact Hrec|].
  assert (Hnone' : records (snd (execute (Scenario.onMemory o) key fp handler opts w))
                   !! (keyPrefix o ++ trim key : jsstring) = None)
    by (rewrite Hrec; exact Hnone).
  destruct (memory_first_call o key fp' r opts' _ Hk Ht' Hr' Hnone')
    as (Hc & _ & Hhc' & _).
  split; [exact Hc|]. unfold invocations. rewrite Hhc'. lia.
Qed.

End Retry.

(** Witness of X8: a handler that never resolves, then one that does. *)
Lemma failed_call_can_be_retried_witness :
  records (snd (execute (Scenario.onMemory (Scenario.testOptions Scenario.quietSink))
                  (js "k1") (js "fp") Pending None Scenario.freshMemory))
  = records Scenario.freshMemory
  /\ fst (execute (Scenario.onMemory (Scenario.testOptions Scenario.quietSink))
            (js "k1") (js "fp2") (Resolves Scenario.success) None
            (snd (execute (Scenario.onMemory (Scenario.testOptions Scenario.quietSink))
                    (js "k1") (js "fp") Pending None Scenario.freshMemory)))
     = Return Scenario.success
  /\ invocations (execute (Scenario.onMemory (Scenario.testOptions Scenario.quietSink))
                    (js "k1") (js "fp2") (Resolves Scenario.success) None)
       (snd (execute (Scenario.onMemory (Scenario.testOptions Scenario.quietSink))
               (js "k1") (js "fp") Pending None Scenario.freshMemory))
     = 1%nat.
Proof.
  apply (failed_call_can_be_retried (Scenario.testOptions Scenario.quietSink)
           (js "k1") (js "fp") (js "fp2") Pending Scenario.success None None
           Scenario.freshMemory).
  - vm_compute. discriminate.
  - vm_compute. split; discriminate.
  - vm_compute. discriminate.
  - vm_compute. split; discriminate.
  - vm_compute. discriminate.
  - vm_compute. reflexivity.
  - discriminate.
Defined.

Section OnRedis.
Context (o : Options).

Lemma redis_call_on_absent_key (key fp : jsstring) (handler : HandlerOutcome)
      (opts : option ExecuteOptions.t) (w : World RedisAdapter.Redis unit) :
  trim key <> [] ->
  50 <= default 30000 (opts ≫= ExecuteOptions.handlerTimeout) <= 300000 ->
  86400000 <= default (retention o) (opts ≫= ExecuteOptions.retentionOverride) ->
  RedisAdapter.unreachable (records w) = None ->
  RedisAdapter.db (records w) !! (keyPrefix o ++ trim key : jsstring) = None ->
  records (snd (execute {| store := RedisAdapter.store; options := o |}
                  key fp handler opts w))
  = {| RedisAdapter.db := RedisAdapter.db (records w);
          RedisAdapter.unreachable := None |}
  /\ clock (snd (execute {| store := RedisAdapter.store; options := o |}
                   key fp handler opts w)) = clock w
  /\ handlerCalls (snd (execute {| store := RedisAdapter.store; options := o |}
                          key fp handler opts w))
     = Datatypes.S (handlerCalls w).
Proof.
  intros Hk Ht Hr Hu Hnone.
  unfold execute. cbn [options].
  rewrite (key_accepted _ Hk), (timeout_accepted _ Ht), (retention_accepted _ Hr).
  exec_unfold; world_simpl. store_ops.
  rewrite Hu, Hnone. world_simpl.
  audit_step. exec_unfold; world_simpl.
  destruct handler as [r|e|]; store_ops;
    cbn [RedisAdapter.db RedisAdapter.unreachable];
    rewrite ?lookup_insert_eq; rewrite ?bool_decide_true by reflexivity;
    cbn [Z.eqb]; world_simpl;
    repeat (audit_step; exec_unfold; world_simpl; store_ops;
            cbn [RedisAdapter.db RedisAdapter.unreachable]);
    rewrite ?insert_insert_eq; rewrite delete_insert_id by exact Hnone;
    split_and!; congruence.
Qed.

(** X9.  Over the Redis adapter, a call on a key that holds nothing leaves
    the key holding nothing, whether its handler succeeds or not: the
    release that ends the call unlinks the record, committed or not.  A
    second call with the same key and fingerprint therefore acquires the
    lock again and invokes its handler. *)
Theorem redis_call_leaves_no_record (key fp : jsstring) (handler handler' : HandlerOutcome)
        (opts opts' : option ExecuteOptions.t) (w : World RedisAdapter.Redis unit) :
  trim key <> [] ->
  50 <= default 30000 (opts ≫= ExecuteOptions.handlerTimeout) <= 300000 ->
  86400000 <= default (retention o) (opts ≫= ExecuteOptions.retentionOverride) ->
  50 <= default 30000 (opts' ≫= ExecuteOptions.handlerTimeout) <= 300000 ->
  86400000 <= default (retention o) (opts' ≫= ExecuteOptions.retentionOverride) ->
  RedisAdapter.unreachable (records w) = None ->
  RedisAdapter.db (records w) !! (keyPrefix o ++ trim key : jsstring) = None ->
  RedisAdapter.db
    (records (snd (execute {| store := RedisAdapter.store; options := o |}
                     key fp handler opts w)))
  = RedisAdapter.db (records w)
  /\ invocations (execute {| store := RedisAdapter.store; options := o |}
                    key fp handler opts) w = 1%nat
  /\ invocations (execute {| store := RedisAdapter.store; options := o |}
                    key fp handler' opts')
       (snd (execute {| store := RedisAdapter.store; options := o |}
               key fp handler opts w)) = 1%nat.
Proof.
  intros Hk Ht Hr Ht' Hr' Hu Hnone.
  destruct (redis_call_on_absent_key key fp handler opts w Hk Ht Hr Hu Hnone)
    as (Hrec & _ & Hhc).
  assert (Hu' : RedisAdapter.unreachable
                  (records (snd (execute {| store := RedisAdapter.store; options := o |}
                                   key fp handler opts w))) = None)
    by (rewrite Hrec; reflexivity).
  assert (Hnone' : RedisAdapter.db
                     (records (snd (execute {| store := RedisAdapter.store;
                                               options := o |} key fp handler opts w)))
                   !! (keyPrefix o ++ trim key : jsstring) = None)
    by (rewrite Hrec; exact Hnone).
  destruct (redis_call_on_absent_key key fp handler' opts' _ Hk Ht' Hr' Hu' Hnone')
    as (_ & _ & Hhc').
  unfold invocations. rewrite Hhc', Hhc, Hrec. split_and!; [reflexivity|lia|lia].
Qed.

End OnRedis.

(** Witness of X9: two calls on an empty server. *)
Lemma redis_call_leaves_no_record_witness :
  RedisAdapter.db
    (records (snd (execute {| store := RedisAdapter.store;
                              options := Scenario.testOptions Scenario.quietSink |}
                     (js "k1") (js "fp") (Resolves Scenario.success) None
                     (Scenario.redisWith ∅ None))))
  = RedisAdapter.db (records (Scenario.redisWith ∅ None))
  /\ invocations (execute {| store := RedisAdapter.store;
                             options := Scenario.testOptions Scenario.quietSink |}
                    (js "k1") (js "fp") (Resolves Scenario.success) None)
       (Scenario.redisWith ∅ None) = 1%nat
  /\ invocations (execute {| store := RedisAdapter.store;
                             options := Scenario.testOptions Scenario.quietSink |}
                    (js "k1") (js "fp") (Resolves Scenario.success) None)
       (snd (execute {| store := RedisAdapter.store;
                        options := Scenario.testOptions Scenario.quietSink |}
               (js "k1") (js "fp") (Resolves Scenario.success) None
               (Scenario.redisWith ∅ None))) = 1%nat.
Proof.
  apply (redis_call_leaves_no_record (Scenario.testOptions Scenario.quietSink)
           (js "k1") (js "fp") (Resolves Scenario.success) (Resolves Scenario.success)
           None None (Scenario.redisWith ∅ None)).
  - vm_compute. discriminate.
  - vm_compute. split; discriminate.
  - vm_compute. discriminate.
  - vm_compute. split; discriminate.
  - vm_compute. discriminate.
  - reflexivity.
  - vm_compute. reflexivity.
Defined.

(** ** A call on a key whose lock is held *)

(** X10.  While a key holds a processing record, in [MemoryStore] or on a
    Redis server that can be reached, every call on the key fails with an
    [OperationInProgressError] without invoking its handler, emits the one
    event [locked], and leaves the records as they are, the lock
    included. *)
Theorem held_lock_rejects_the_call (o : Options) (key fp : jsstring)
        (handler : HandlerOutcome) (opts : option ExecuteOptions.t) :
  trim key <> [] ->
  50 <= default 30000 (opts ≫= ExecuteOptions.handlerTimeout) <= 300000 ->
  86400000 <= default (retention o) (opts ≫= ExecuteOptions.retentionOverride) ->
  (forall (w : World (gmap jsstring MemoryStore.Entry) (list AuditEvent.t))
          acquiredAt ttl,
      records w !! (keyPrefix o ++ trim key : jsstring)
      = Some (MemoryStore.Processing acquiredAt ttl) ->
      (exists e, fst (execute (Scenario.onMemory o) key fp handler opts w) = Throw e
                 /\ errClass e = Some OperationInProgressError)
      /\ records (snd (execute (Scenario.onMemory o) key fp handler opts w)) = records w
      /\ invocations (execute (Scenario.onMemory o) key fp handler opts) w = 0%nat
      /\ actions (emitted (execute (Scenario.onMemory o) key fp handler opts) w)
         = [AuditEvent.locked])
  /\ (forall (w : World RedisAdapter.Redis unit) f res createdAt acquiredAt,
         RedisAdapter.unreachable (records w) = None ->
         RedisAdapter.db (records w) !! (keyPrefix o ++ trim key : jsstring)
         = Some (RedisAdapter.Table (Some (js "processing")) f res createdAt
                   acquiredAt) ->
         (exists e,
             fst (execute {| store := RedisAdapter.store; options := o |}
                    key fp handler opts w) = Throw e
             /\ errClass e = Some OperationInProgressError)
         /\ RedisAdapter.db
              (records (snd (execute {| store := RedisAdapter.store; options := o |}
                               key fp handler opts w)))
            = RedisAdapter.db (records w)
         /\ invocations (execute {| store := RedisAdapter.store; options := o |}
                           key fp handler opts) w = 0%nat
         /\ actions (emitted (execute {| store := RedisAdapter.store; options := o |}
                                key fp handler opts) w)
            = [AuditEvent.locked]).
Proof.
  intros Hk Ht Hr. split.
  - intros w acquiredAt ttl Hlock. unfold invocations, emitted.
    unfold execute. cbn [Scenario.onMemory options].
    rewrite (key_accepted _ Hk), (timeout_accepted _ Ht), (retention_accepted _ Hr).
    exec_unfold; world_simpl. store_ops.
    rewrite Hlock. world_simpl.
    audit_step. exec_unfold; world_simpl. chains.
    rewrite drop_app_length, Nat.sub_diag.
    split_and!; [eexists; split; reflexivity|congruence|reflexivity|reflexivity].
  - intros w f res createdAt acquiredAt Hu Hlock. unfold invocations, emitted.
    unfold execute. cbn [options].
    rewrite (key_accepted _ Hk), (timeout_accepted _ Ht), (retention_accepted _ Hr).
    exec_unfold; world_simpl. store_ops.
    rewrite Hu, Hlock, bool_decide_true by reflexivity. world_simpl.
    audit_step. exec_unfold; world_simpl. chains.
    rewrite drop_app_length, Nat.sub_diag.
    split_and!; [eexists; split; reflexivity|reflexivity|reflexivity|reflexivity].
Qed.

(** Witness of X10: the second request of the test [should reject with
    OperationInProgressError during lock contention]. *)
Lemma held_lock_rejects_the_call_witness :
  (exists e,
      fst (execute (Scenario.onMemory (Scenario.testOptions Scenario.quietSink))
             (js "concurrent-key") (js "fp") (Resolves Scenario.success) None
             (Scenario.world
                {[ js "concurrent-key" := MemoryStore.Processing 1700000000000 30000 ]}
                [])) = Throw e
      /\ errClass e = Some OperationInProgressError)
  /\ invocations (execute (Scenario.onMemory (Scenario.testOptions Scenario.quietSink))
                    (js "concurrent-key") (js "fp") (Resolves Scenario.success) None)
       (Scenario.world
          {[ js "concurrent-key" := MemoryStore.Processing 1700000000000 30000 ]} [])
     = 0%nat.
Proof.
  destruct (held_lock_rejects_the_call (Scenario.testOptions Scenario.quietSink)
              (js "concurrent-key") (js "fp") (Resolves Scenario.success) None)
    as [Hmemory _].
  - vm_compute. discriminate.
  - vm_compute. split; discriminate.
  - vm_compute. discriminate.
  - destruct (Hmemory
                (Scenario.world
                   {[ js "concurrent-key" :=
                        MemoryStore.Processing 1700000000000 30000 ]} [])
                1700000000000 30000) as (He & _ & Hinv & _).
    + vm_compute. reflexivity.
    + split; [exact He|exact Hinv].
Defined.

(** ** The events of a call *)

Section Events.
Context {S A : Type} (this : t S A).

(** X11.  Every event that a call hands to the audit callback names the
    prefixed and trimmed key.  [locked] and [lock_released] carry no
    fingerprint, every other event carries the fingerprint of the call.
    A [fingerprint_mismatch] event carries the stored fingerprint, which
    differs from that of the call; no other event carries one. *)
Theorem emitted_events_describe_the_call (key fp : jsstring) (handler : HandlerOutcome)
        (opts : option ExecuteOptions.t) (w : World S A) :
  Forall (fun c =>
            AuditEvent.key (snd c) = keyPrefix (options this) ++ trim key
            /\ AuditEvent.fingerprint (snd c)
               = match AuditEvent.action (snd c) with
                 | AuditEvent.locked | AuditEvent.lock_released => None
                 | _ => Some fp
                 end
            /\ match AuditEvent.action (snd c) with
               | AuditEvent.fingerprint_mismatch =>
                   exists storedFp,
                     AuditEvent.storedFingerprint (snd c) = Some storedFp
                     /\ storedFp <> fp
               | _ => AuditEvent.storedFingerprint (snd c) = None
               end)
         (emitted (execute this key fp handler opts) w).
Proof.
  unfold emitted, execute.
  destruct (_ || _); [cbv [throw snd]; rewrite drop_all; constructor|].
  destruct (_ || _); [cbv [throw snd]; rewrite drop_all; constructor|].
  destruct (_ <? _); [cbv [throw snd]; rewrite drop_all; constructor|].
  exec_paths; chains; rewrite ?drop_app_length, ?drop_all;
    try match goal with
        | |- context [instanceOf ?e ?c] => destruct (instanceOf e c)
        end;
    repeat constructor; cbn [snd safeEvent AuditEvent.action AuditEvent.storedFingerprint];
    try reflexivity.
  eexists. split; [reflexivity|].
  match goal with
  | H : bool_decide _ = true |- _ => apply bool_decide_eq_true in H; exact H
  end.
Qed.

End Events.

(** ** White space around the key *)

Lemma trimStart_length (s : jsstring) : (length (trimStart s) <= length s)%nat.
Proof.
  induction s as [|c s IH]; simpl; [lia|].
  destruct (isWhiteSpace c); simpl; lia.
Qed.

Lemma trimStart_suffix (s : jsstring) : exists pre, s = pre ++ trimStart s.
Proof.
  induction s as [|c s [pre IH]]; simpl.
  - exists []. reflexivity.
  - destruct (isWhiteSpace c).
    + exists (c :: pre). simpl. rewrite <- IH. reflexivity.
    + exists []. reflexivity.
Qed.

Lemma trimStart_idempotent (s : jsstring) : trimStart (trimStart s) = trimStart s.
Proof.
  induction s as [|c s IH]; simpl; [reflexivity|].
  destruct (isWhiteSpace c) eqn:E; [exact IH|].
  simpl. rewrite E. reflexivity.
Qed.

Lemma trimStart_prefix_fixed (t u rest : jsstring) :
  trimStart t = t -> t = u ++ rest -> trimStart u = u.
Proof.
  intros Ht ->. destruct u as [|c u]; [reflexivity|].
  simpl in *. destruct (isWhiteSpace c); [|reflexivity].
  pose proof (trimStart_length (u ++ rest)) as Hlen.
  rewrite Ht in Hlen. simpl in Hlen. lia.
Qed.

Lemma trim_idempotent (s : jsstring) : trim (trim s) = trim s.
Proof.
  unfold trim.
  destruct (trimStart_suffix (rev (trimStart s))) as [pre Hpre].
  assert (Hfix : trimStart (rev (trimStart (rev (trimStart s))))
                 = rev (trimStart (rev (trimStart s)))).
  { apply (trimStart_prefix_fixed (trimStart s) _ (rev pre)).
    - apply trimStart_idempotent.
    - rewrite <- rev_app_distr, <- Hpre, rev_involutive. reflexivity. }
  rewrite Hfix, rev_involutive, trimStart_idempotent. reflexivity.
Qed.

Section KeyWhiteSpace.
Context {S A : Type} (this : t S A).

(** X12.  White space around the key is not significant: the call with
    the key and the call with the trimmed key leave the same world (the
    same records, the same events under the same key, the same
    invocations), both return the same result or both fail with errors of
    the same class, status and code. *)
Theorem key_whitespace_is_insignificant (key fp : jsstring) (handler : HandlerOutcome)
        (opts : option ExecuteOptions.t) (w : World S A) :
  snd (execute this key fp handler opts w)
  = snd (execute this (trim key) fp handler opts w)
  /\ match fst (execute this key fp handler opts w),
           fst (execute this (trim key) fp handler opts w) with
     | Return r, Return r' => r = r'
     | Throw e, Throw e' =>
         errClass e = errClass e' /\ errStatus e = errStatus e'
         /\ errCode e = errCode e'
     | _, _ => False
     end.
Proof.
  unfold execute.
  destruct (decide (trim key = [])) as [E|Hk].
  { rewrite trim_idempotent, E. cbn [length Nat.eqb]. rewrite !orb_true_r.
    cbv [throw fst snd]. auto. }
  assert (Hk' : trim (trim key) <> []) by (rewrite trim_idempotent; exact Hk).
  rewrite (key_accepted key Hk), (key_accepted (trim key) Hk'), trim_idempotent.
  destruct (_ || _); [cbv [throw fst snd]; auto|].
  destruct (_ <? _); [cbv [throw fst snd]; auto|].
  exec_paths; auto.
Qed.

End KeyWhiteSpace.

(** ** What the redaction keeps *)

Section Redaction.
Implicit Types md : list (jsstring * value).

Lemma NoDup_keys_filter (f : jsstring * value -> bool) md :
  NoDup (keys md) -> NoDup (keys (List.filter f md)).
Proof.
  unfold keys. induction md as [|p md IH]; simpl; intros H; [constructor|].
  apply NoDup_cons in H as [Hnotin H].
  destruct (f p); simpl; [|auto].
  apply NoDup_cons. split; [|auto].
  intros Hin. apply Hnotin.
  apply list_elem_of_In in Hin. apply list_elem_of_In.
  apply in_map_iff in Hin as (q & Hq & Hin). apply in_map_iff.
  exists q. split; [exact Hq|]. apply filter_In in Hin. tauto.
Qed.

Lemma redact_distinct md :
  NoDup (keys md) ->
  redact (Some md)
  = Some (List.filter (fun e => negb (Regex.test sensitivePattern (fst e)))
                      (ownEntries md)).
Proof.
  intros Hnd. unfold redact. f_equal. apply fromEntries_distinct.
  apply NoDup_keys_filter. unfold keys in *.
  rewrite ownEntries_Permutation. exact Hnd.
Qed.

(** X13.  On metadata with distinct keys the redaction keeps the entries
    whose key has no substring matched by the pattern, each with its
    value, and nothing else. *)
Theorem redact_keeps_exactly_the_safe_entries md :
  NoDup (keys md) ->
  exists md',
    redact (Some md) = Some md'
    /\ forall k v,
        In (k, v) md' <-> In (k, v) md /\ ~ Regex.Occurs sensitivePattern k.
Proof.
  intros Hnd. eexists. split; [apply redact_distinct; exact Hnd|].
  intros k v. rewrite filter_In. cbn [fst].
  rewrite <- test_spec, negb_true_iff, not_true_iff_false.
  split; intros [Hin Ht]; (split; [|exact Ht]).
  - eapply Permutation_in; [apply ownEntries_Permutation|exact Hin].
  - eapply Permutation_in; [symmetry; apply ownEntries_Permutation|exact Hin].
Qed.

End Redaction.

(** Witness of X13: the metadata of the test [should filter PII from
    audit events]. *)
Lemma redact_keeps_exactly_the_safe_entries_witness :
  exists md',
    redact (Some Scenario.piiMetadata) = Some md'
    /\ forall k v,
        In (k, v) md'
        <-> In (k, v) Scenario.piiMetadata /\ ~ Regex.Occurs sensitivePattern k.
Proof.
  apply (redact_keeps_exactly_the_safe_entries Scenario.piiMetadata).
  apply NoDup_ListNoDup. repeat constructor; simpl; intuition discriminate.
Defined.

(** ** The pattern of the redaction, in plain words *)

Section SensitivePattern.
Import Regex.

Lemma Matches_literal (l : list N) : forall w,
  Matches (fold_right (fun c r => Seq (Chr c) r) Eps l) w
  <-> map canonicalize w = map canonicalize l.
Proof.
  induction l as [|c l IH]; intros w; simpl.
  - split.
    + inversion 1. reflexivity.
    + destruct w; [constructor|discriminate].
  - split.
    + inversion 1 as [| | | | |? ? w1 w2 H1 H2| |]; subst.
      inversion H1; subst. simpl. f_equal; [assumption|]. apply IH. assumption.
    + destruct w as [|x w]; [discriminate|]. simpl. intros [= Hx Hw].
      change (x :: w) with ([x] ++ w).
      constructor; [constructor; exact Hx|]. apply IH. exact Hw.
Qed.

Lemma Matches_lit (s : string) (w : jsstring) :
  Matches (lit s) w <-> Sensitive.sameIgnoringCase w (js s).
Proof. apply Matches_literal. Qed.

Lemma Matches_fullName (w : jsstring) :
  Matches (Seq (lit "full") (Seq (Opt Dot) (lit "name"))) w <-> Sensitive.fullName w.
Proof.
  split.
  - inversion 1 as [| | | | |? ? a w2 Ha H2| |]; subst.
    inversion H2 as [| | | | |? ? m b Hm Hb| |]; subst.
    exists a, m, b. rewrite Matches_lit in Ha, Hb.
    split_and!; [reflexivity|exact Ha|exact Hb|].
    inversion Hm as [| | | | | |? ? Hdot|]; subst; [|left; reflexivity].
    inversion Hdot; subst. right. eauto.
  - intros (a & m & b & -> & Ha & Hb & Hm).
    constructor; [apply Matches_lit; exact Ha|].
    constructor; [|apply Matches_lit; exact Hb].
    destruct Hm as [->|(c & -> & Hc)]; [apply MOptNone|].
    apply MOptSome. constructor. exact Hc.
Qed.

Lemma Matches_sensitivePattern (w : jsstring) :
  Matches sensitivePattern w
  <-> List.Exists (Sensitive.sameIgnoringCase w) Sensitive.words \/ Sensitive.fullName w.
Proof.
  unfold sensitivePattern. split.
  - intros H.
    repeat match goal with
           | H : Matches (Alt _ _) _ |- _ => inversion H; subst; clear H
           end;
      match goal with
      | H : Matches (Seq _ _) _ |- _ => right; apply Matches_fullName; exact H
      | H : Matches (lit _) _ |- _ =>
          left; apply Matches_lit in H; apply List.Exists_exists;
          eexists; split; [|exact H];
          unfold Sensitive.words; cbn [map In];
          repeat (first [left; reflexivity | right])
      end.
  - intros [H|H].
    + apply List.Exists_exists in H as (word & Hin & H).
      unfold Sensitive.words in Hin. cbn [map In] in Hin.
      repeat (destruct Hin as [<-|Hin];
              [apply (proj2 (Matches_lit _ _)) in H;
               repeat (first [apply MAltL; exact H | apply MAltR]);
               exact H|]).
      try destruct Hin.
    + apply Matches_fullName in H.
      do 7 apply MAltR. apply MAltL. exact H.
Qed.

(** X14.  The pattern of [_audit] matches a key exactly when the key has
    a substring that is, whatever the case of its ASCII letters, one of
    [password], [token], [secret], [card], [cvv], [pin], [ssn], [email],
    [phone], or [full] and [name] with at most one code unit, not a line
    terminator, between them. *)
Theorem sensitive_keys_in_plain_words (k : jsstring) :
  test sensitivePattern k = true <-> Sensitive.key k.
Proof.
  rewrite test_spec. unfold Occurs, Sensitive.key.
  split; intros (pre & w & post & Hk & H); exists pre, w, post;
    (split; [exact Hk|]); apply Matches_sensitivePattern; exact H.
Qed.

End SensitivePattern.

(** ** The events [error] and [timeout] *)

Section SetProperty.
Context {V : Type}.
Implicit Types l : list (jsstring * V).

Lemma setProperty_In_same k (v : V) l : In (k, v) (setProperty k v l).
Proof.
  induction l as [|[k' v'] l IH]; simpl; [auto|].
  destruct (decide (k' = k)); simpl; auto.
Qed.

Lemma setProperty_In_other k (v : V) l p :
  In p l -> fst p <> k -> In p (setProperty k v l).
Proof.
  intros Hin Hne. induction l as [|[k' v'] l IH]; simpl in *; [contradiction|].
  destruct Hin as [<-|Hin].
  - destruct (decide (k' = k)); [contradiction|]. left. reflexivity.
  - destruct (decide (k' = k)); simpl; auto.
Qed.

Lemma setProperty_NoDup k (v : V) l :
  List.NoDup (keys l) -> List.NoDup (keys (setProperty k v l)).
Proof.
  unfold keys. induction l as [|[k' v'] l IH]; simpl; intros H.
  - repeat constructor. auto.
  - inversion H as [|? ? Hnotin H']; subst.
    destruct (decide (k' = k)) as [->|Hne]; simpl; [constructor; assumption|].
    constructor; [|auto].
    intros Hin. apply (keys_setProperty k v l k') in Hin as [Hin|Hin]; auto.
Qed.

Lemma fromEntries_NoDup (es : list (jsstring * V)) : List.NoDup (keys (fromEntries es)).
Proof.
  unfold fromEntries.
  assert (H : forall acc, List.NoDup (keys acc) ->
                List.NoDup (keys (fold_left (fun o e => setProperty (fst e) (snd e) o)
                                            es acc))).
  { induction es as [|e es IH]; intros acc Hacc; simpl; [exact Hacc|].
    apply IH, setProperty_NoDup, Hacc. }
  apply H. constructor.
Qed.

End SetProperty.

Lemma redacted_failure_metadata (opts : option ExecuteOptions.t) (err : thrown) :
  exists md,
    redact (Some (failureMetadata opts err)) = Some md
    /\ In (js "error", VStr (errorText err)) md
    /\ forall name, errName err = Some name -> In (js "errorCode", VStr name) md.
Proof.
  assert (Hnd : NoDup (keys (failureMetadata opts err))).
  { apply NoDup_ListNoDup. unfold failureMetadata.
    apply setProperty_NoDup, setProperty_NoDup, fromEntries_NoDup. }
  eexists. split; [apply redact_distinct; exact Hnd|].
  assert (Hkeep : forall p, In p (failureMetadata opts err) ->
                    Regex.test sensitivePattern (fst p) = false ->
                    In p (List.filter
                            (fun e => negb (Regex.test sensitivePattern (fst e)))
                            (ownEntries (failureMetadata opts err)))).
  { intros p Hin Ht. apply filter_In. split; [|rewrite Ht; reflexivity].
    eapply Permutation_in; [symmetry; apply ownEntries_Permutation|exact Hin]. }
  split.
  - apply Hkeep; [|vm_compute; reflexivity].
    unfold failureMetadata. apply setProperty_In_other; [|vm_compute; discriminate].
    unfold errorText. destruct err; apply setProperty_In_same.
  - intros name Hname. apply Hkeep; [|vm_compute; reflexivity].
    unfold failureMetadata. destruct err; [|discriminate Hname].
    injection Hname as ->. apply setProperty_In_same.
Qed.

Section FailureEvents.
Context {S A : Type} (this : t S A).

(** X15.  When a call fails, every [error] or [timeout] event it emits
    carries, after the redaction, the text of the error under [error] and,
    for an error object, its name under [errorCode], whatever the metadata
    of the caller holds under these keys. *)
Theorem failure_events_record_the_error (key fp : jsstring) (handler : HandlerOutcome)
        (opts : option ExecuteOptions.t) (w : World S A) (e : thrown) :
  fst (execute this key fp handler opts w) = Throw e ->
  Forall (fun c =>
            match AuditEvent.action (snd c) with
            | AuditEvent.error | AuditEvent.timeout =>
                exists md,
                  AuditEvent.metadata (snd c) = Some md
                  /\ In (js "error", VStr (errorText e)) md
                  /\ forall name, errName e = Some name ->
                                  In (js "errorCode", VStr name) md
            | _ => True
            end)
         (emitted (execute this key fp handler opts) w).
Proof.
  unfold emitted, execute.
  destruct (_ || _); [cbv [throw snd]; rewrite drop_all; constructor|].
  destruct (_ || _); [cbv [throw snd]; rewrite drop_all; constructor|].
  destruct (_ <? _); [cbv [throw snd]; rewrite drop_all; constructor|].
  exec_paths; intros Hret; try discriminate Hret; injection Hret as <-;
    chains; rewrite ?drop_app_length, ?drop_all; cbn [app];
    repeat first [apply List.Forall_nil | apply List.Forall_cons];
    cbn [snd safeEvent AuditEvent.action AuditEvent.metadata];
    try exact I;
    match goal with
    | |- context [instanceOf ?e ?c] =>
        destruct (instanceOf e c); apply redacted_failure_metadata
    end.
Qed.

End FailureEvents.

(** Witness of X15: a handler that rejects, called with metadata that
    holds an [error] entry of its own. *)
Lemma failure_events_record_the_error_witness :
  Forall (fun c =>
            match AuditEvent.action (snd c) with
            | AuditEvent.error | AuditEvent.timeout =>
                exists md,
                  AuditEvent.metadata (snd c) = Some md
                  /\ In (js "error",
                         VStr (errorText (new_Error (js "Handler failed")))) md
                  /\ forall name,
                      errName (new_Error (js "Handler failed")) = Some name ->
                      In (js "errorCode", VStr name) md
            | _ => True
            end)
         (emitted (execute (Scenario.memoryEngine Scenario.quietSink) (js "error-key")
                     (js "fp") (Rejects (new_Error (js "Handler failed")))
                     (Scenario.withMetadata [(js "error", VStr (js "mine"))]))
            Scenario.freshMemory).
Proof.
  apply (failure_events_record_the_error (Scenario.memoryEngine Scenario.quietSink)
           (js "error-key") (js "fp") (Rejects (new_Error (js "Handler failed")))
           (Scenario.withMetadata [(js "error", VStr (js "mine"))])
           Scenario.freshMemory (new_Error (js "Handler failed"))).
  vm_compute. reflexivity.
Defined.

(** ** The audit log of [MemoryStore] *)

Section AuditLog.
Context {S : Type} (this : t S (list AuditEvent.t)).
Hypothesis recordAudit_appends : recordAudit (store this) = Some MemoryStore.recordAudit.

Lemma _audit_auditLog event auditor (w : World S (list AuditEvent.t)) :
  auditLog (snd (_audit this event auditor w))
  = auditLog w
    ++ match sinkFails auditor (safeEvent event) with
       | None => [safeEvent event]
       | Some _ => []
       end.
Proof.
  unfold _audit, tryCatch, mbind, Eff_bind, bind, callSink, store_recordAudit.
  rewrite recordAudit_appends.
  destruct (sinkFails auditor (safeEvent event)); simpl;
    [rewrite app_nil_r|]; reflexivity.
Qed.

Ltac audit_log_step :=
  match goal with
  | |- context [_audit ?t ?e ?s ?w] =>
      rewrite (_audit_eq t e s w);
      let w' := fresh "w" in
      let Hr := fresh "Hrec" in
      let Hh := fresh "Hhc" in
      let Hc := fresh "Hclk" in
      let Hl := fresh "Hlog" in
      let Hp := fresh "Hpers" in
      pose proof (_audit_frame t e s w) as (Hr & Hh & Hc);
      pose proof (_audit_auditLog e s w) as Hl;
      pose proof (_audit_recordAuditCalls t e s w) as Hp;
      rewrite recordAudit_appends in Hp;
      set (w' := snd (_audit t e s w)) in *; clearbody w';
      world_simpl;
      rewrite ?Hr, ?Hc
  end.

Lemma execute_auditLog (key fp : jsstring) (handler : HandlerOutcome)
      (opts : option ExecuteOptions.t) (w : World S (list AuditEvent.t)) :
  exists new,
    auditLog (snd (execute this key fp handler opts w)) = auditLog w ++ new
    /\ recordAuditCalls (snd (execute this key fp handler opts w))
       = recordAuditCalls w ++ new.
Proof.
  unfold execute.
  destruct (_ || _); [exists []; cbv [throw snd]; rewrite !app_nil_r; auto|].
  destruct (_ || _); [exists []; cbv [throw snd]; rewrite !app_nil_r; auto|].
  destruct (_ <? _); [exists []; cbv [throw snd]; rewrite !app_nil_r; auto|].
  exec_unfold; world_simpl;
    repeat (first [ audit_log_step
                  | store_step
                  | match goal with
                    | |- context [bool_decide ?P] => destruct (bool_decide P) eqn:?
                    end ];
            exec_unfold; world_simpl);
    repeat match goal with
           | H : auditLog _ = _ |- _ => rewrite H
           | H : recordAuditCalls _ = _ |- _ => rewrite H
           end;
    rewrite <- ?app_assoc;
    first [ eexists; split; reflexivity
          | exists []; rewrite !app_nil_r; split; reflexivity ].
Qed.

End AuditLog.

(** X16.  Over [MemoryStore] the audit log receives what
    [store.recordAudit] is called with, in the order of the calls: after a
    call the log is the log before it followed by the events persisted by
    the call, which are the events that the audit callback accepted. *)
Theorem memory_audit_log_is_appended (o : Options) (key fp : jsstring)
        (handler : HandlerOutcome) (opts : option ExecuteOptions.t)
        (w : World (gmap jsstring MemoryStore.Entry) (list AuditEvent.t)) :
  auditLog (snd (execute (Scenario.onMemory o) key fp handler opts w))
  = auditLog w ++ persisted (execute (Scenario.onMemory o) key fp handler opts) w
  /\ persisted (execute (Scenario.onMemory o) key fp handler opts) w
     = List.filter (sinkSucceeds (activeSink (Scenario.onMemory o) opts))
         (map snd (emitted (execute (Scenario.onMemory o) key fp handler opts) w)).
Proof.
  destruct (execute_auditLog (Scenario.onMemory o) eq_refl key fp handler opts w)
    as (new & Hlog & Hpers).
  destruct (execute_run (Scenario.onMemory o) key fp handler opts w)
    as (calls & Hsink & _ & Hpers' & _).
  rewrite (persisted_eq _ _ _ Hpers), Hlog.
  split; [reflexivity|].
  rewrite (emitted_eq _ _ _ Hsink).
  rewrite Hpers in Hpers'. apply app_inv_head in Hpers'. exact Hpers'.
Qed.

(** ** The fingerprint of any payload *)

Section FingerprintOutcomes.
Context {host : Host}.




Hypothesis localeCompare_total :
  forall a b, localeCompare a b <= 0 \/ localeCompare b a <= 0.
Hypothesis localeCompare_trans :
  forall a b c, localeCompare a b <= 0 -> localeCompare b c <= 0 -> localeCompare a c <= 0.
Hypothesis localeCompare_separates :
  forall a b, localeCompare a b <= 0 -> localeCompare b a <= 0 -> a = b.



End FingerprintOutcomes.

Section CanonicalForm.
Context {host : Host} {S A : Type} (this : t S A).


End CanonicalForm.


(** ** Properties whose value is [undefined] *)

Section FilterSorted.
Context {V : Type} (le : jsstring -> jsstring -> bool) (g : jsstring * V -> bool).
Implicit Types l : list (jsstring * V).
Hypothesis le_total : forall a b, le a b = true \/ le b a = true.
Hypothesis le_trans : forall a b c, le a b = true -> le b c = true -> le a c = true.

Lemma insertBy_first x l :
  Forall (fun y => le (fst x) (fst y) = true) l -> insertBy le x l = x :: l.
Proof.
  destruct l as [|y l]; simpl; [reflexivity|].
  intros H. inversion H as [|? ? Hy _]; subst. rewrite Hy. reflexivity.
Qed.

Lemma filter_insertBy_dropped x l :
  g x = false -> List.filter g (insertBy le x l) = List.filter g l.
Proof.
  intros Hx. induction l as [|y l IH]; simpl; [rewrite Hx; reflexivity|].
  destruct (le (fst x) (fst y)); simpl; [rewrite Hx; reflexivity|].
  rewrite IH. reflexivity.
Qed.

Lemma filter_insertBy_kept x l :
  g x = true -> StronglySorted (entryLe le) l ->
  List.filter g (insertBy le x l) = insertBy le x (List.filter g l).
Proof.
  intros Hx. induction 1 as [|y l Hs IH Hall]; simpl; [rewrite Hx; reflexivity|].
  destruct (le (fst x) (fst y)) eqn:E; simpl; rewrite ?Hx.
  - destruct (g y) eqn:Hy; simpl; [rewrite E; reflexivity|].
    symmetry. apply insertBy_first.
    apply List.Forall_forall. intros z Hz. apply filter_In in Hz as [Hz _].
    rewrite List.Forall_forall in Hall. apply (le_trans _ (fst y)); [exact E|].
    apply Hall. exact Hz.
  - destruct (g y) eqn:Hy; simpl; rewrite ?E, IH; reflexivity.
Qed.

Lemma filter_sortBy l : List.filter g (sortBy le l) = sortBy le (List.filter g l).
Proof.
  induction l as [|x l IH]; simpl; [reflexivity|].
  destruct (g x) eqn:Hx; simpl.
  - rewrite filter_insertBy_kept, IH; [reflexivity|exact Hx|].
    apply sortBy_sorted; assumption.
  - rewrite filter_insertBy_dropped, IH; [reflexivity|exact Hx].
Qed.

End FilterSorted.

Lemma filter_comm {T} (f g : T -> bool) (l : list T) :
  List.filter f (List.filter g l) = List.filter g (List.filter f l).
Proof.
  induction l as [|x l IH]; simpl; [reflexivity|].
  destruct (f x) eqn:Hf, (g x) eqn:Hg; simpl; rewrite ?Hf, ?Hg, IH; reflexivity.
Qed.

Lemma filter_ownEntries {V} (g : jsstring * V -> bool) (l : list (jsstring * V)) :
  List.filter g (ownEntries l) = ownEntries (List.filter g l).
Proof.
  unfold ownEntries. rewrite List.filter_app.
  rewrite (filter_sortBy indexLe g indexLe_total indexLe_trans).
  rewrite !(filter_comm g). reflexivity.
Qed.

Section UndefinedProperties.
Context {host : Host} {S A : Type} (this : t S A).

Lemma defined_normalize (p : jsstring * value) :
  defined (onValues normalize p) = defined p.
Proof. destruct p as [k []]; reflexivity. Qed.

Lemma filter_defined_normalize (l : list (jsstring * value)) :
  List.filter defined (map (onValues normalize) l)
  = map (onValues normalize) (List.filter defined l).
Proof.
  induction l as [|p l IH]; simpl; [reflexivity|].
  rewrite defined_normalize. destruct (defined p); simpl; rewrite IH; reflexivity.
Qed.

Lemma written_properties_defined (l : list (jsstring * value)) :
  omap (fun p : jsstring * value =>
          match stringify (snd p) with
          | Some t => Some (quote (fst p) ++ js ":" ++ t)
          | None => None
          end) (List.filter defined l)
  = omap (fun p : jsstring * value =>
            match stringify (snd p) with
            | Some t => Some (quote (fst p) ++ js ":" ++ t)
            | None => None
            end) l.
Proof.
  induction l as [|[k v] l IH]; [reflexivity|].
  cbn [List.filter]. unfold defined at 1. cbn [snd].
  destruct v; cbn [omap list_omap snd fst stringify]; rewrite <- ?IH; reflexivity.
Qed.

(** X19.  A property whose value is [undefined] does not count in the
    fingerprint: when the collation of the host is a total order, an
    object with distinct keys has the fingerprint of the object without
    its properties of value [undefined]. *)
Theorem undefined_properties_do_not_count (ps : list (jsstring * value)) :
  (forall a b, localeCompare a b <= 0 \/ localeCompare b a <= 0) ->
  (forall a b c,
      localeCompare a b <= 0 -> localeCompare b c <= 0 -> localeCompare a c <= 0) ->
  NoDup (keys ps) ->
  fingerprint this (VObj ps) = fingerprint this (VObj (List.filter defined ps)).
Proof.
  intros Htotal Htrans Hnd. unfold fingerprint.
  assert (Hnormal : forall qs, NoDup (keys qs) ->
            normalize (VObj qs)
            = VObj (map (onValues normalize) (sortBy byLocale (ownEntries qs)))).
  { intros qs Hqs. rewrite normalize_VObj.
    change (fun p : jsstring * value => (fst p, normalize (snd p)))
      with (onValues normalize).
    rewrite fromEntries_distinct; [reflexivity|].
    rewrite keys_onValues. unfold keys in *.
    rewrite sortBy_Permutation, ownEntries_Permutation. exact Hqs. }
  rewrite (Hnormal ps Hnd), (Hnormal (List.filter defined ps))
    by (apply NoDup_keys_filter; exact Hnd).
  rewrite <- filter_ownEntries.
  rewrite <- (filter_sortBy byLocale defined (byLocale_total Htotal)
                (byLocale_trans Htrans)).
  rewrite <- filter_defined_normalize.
  rewrite !stringify_VObj, <- filter_ownEntries, written_properties_defined.
  reflexivity.
Qed.

End UndefinedProperties.

(** Witness of X19: a payload with a property of value [undefined]. *)
Lemma undefined_properties_do_not_count_witness :
  fingerprint (host := Scenario.codeUnitHost) (Scenario.memoryEngine Scenario.quietSink)
    (VObj [(js "note", VUndefined); (js "amount", VNum 100)])
  = fingerprint (host := Scenario.codeUnitHost)
      (Scenario.memoryEngine Scenario.quietSink)
      (VObj (List.filter defined [(js "note", VUndefined); (js "amount", VNum 100)])).
Proof.
  apply (undefined_properties_do_not_count (host := Scenario.codeUnitHost)
           (Scenario.memoryEngine Scenario.quietSink)
           [(js "note", VUndefined); (js "amount", VNum 100)]).
  - exact codeUnitCompare_total.
  - exact codeUnitCompare_trans.
  - apply NoDup_ListNoDup. repeat constructor; simpl; intuition discriminate.
Defined.

(** ** The stores by themselves *)

(** X20.  [MemoryStore]: on a key without record the lock is acquired and
    the result committed; from then on, until the record expires,
    [atomicCheckAndLock] answers [exists] with the fingerprint, the result
    and the time of the commit, a further [commitResult] is rejected and
    [releaseLock] does nothing: the committed record stays as it is. *)
Theorem MemoryStore_committed_result_is_read_back (key fp : jsstring) (r : value)
        (ttl retention now now' : Z) (s : gmap jsstring MemoryStore.Entry) :
  s !! key = None ->
  fst (MemoryStore.atomicCheckAndLock key fp ttl now s) = Return Acquired
  /\ fst (MemoryStore.commitResult key fp r retention now'
            (snd (MemoryStore.atomicCheckAndLock key fp ttl now s))) = Return tt
  /\ forall s2,
      s2 = snd (MemoryStore.commitResult key fp r retention now'
                  (snd (MemoryStore.atomicCheckAndLock key fp ttl now s))) ->
      (forall fp2 ttl2 now2,
          MemoryStore.atomicCheckAndLock key fp2 ttl2 now2 s2
          = (Return (Exists fp r now'), s2))
      /\ (forall fp2 r2 retention2 now2,
             exists e,
               MemoryStore.commitResult key fp2 r2 retention2 now2 s2 = (Throw e, s2))
      /\ MemoryStore.releaseLock key s2 = (Return tt, s2).
Proof.
  intros Hnone.
  unfold MemoryStore.atomicCheckAndLock, MemoryStore.commitResult,
    MemoryStore.releaseLock.
  rewrite Hnone. cbn [fst snd]. rewrite lookup_insert_eq. cbn [fst snd].
  split_and!; [reflexivity|reflexivity|].
  intros s2 ->. rewrite !lookup_insert_eq.
  split_and!; [reflexivity|eexists; reflexivity|reflexivity].
Qed.

(** Witness of X20: a key of the empty store. *)
Lemma MemoryStore_committed_result_is_read_back_witness :
  fst (MemoryStore.atomicCheckAndLock (js "k1") (js "fp") 30000 1700000000000 ∅)
  = Return Acquired
  /\ fst (MemoryStore.commitResult (js "k1") (js "fp") Scenario.success 86400000
            1700000000005
            (snd (MemoryStore.atomicCheckAndLock (js "k1") (js "fp") 30000
                    1700000000000 ∅))) = Return tt
  /\ forall s2,
      s2 = snd (MemoryStore.commitResult (js "k1") (js "fp") Scenario.success
                  86400000 1700000000005
                  (snd (MemoryStore.atomicCheckAndLock (js "k1") (js "fp") 30000
                          1700000000000 ∅))) ->
      (forall fp2 ttl2 now2,
          MemoryStore.atomicCheckAndLock (js "k1") fp2 ttl2 now2 s2
          = (Return (Exists (js "fp") Scenario.success 1700000000005), s2))
      /\ (forall fp2 r2 retention2 now2,
             exists e,
               MemoryStore.commitResult (js "k1") fp2 r2 retention2 now2 s2
               = (Throw e, s2))
      /\ MemoryStore.releaseLock (js "k1") s2 = (Return tt, s2).
Proof.
  apply (MemoryStore_committed_result_is_read_back (js "k1") (js "fp")
           Scenario.success 30000 86400000 1700000000000 1700000000005 ∅).
  apply lookup_empty.
Defined.

(** X21.  The Redis adapter with its scripts, on a server that can be
    reached: on a key that holds nothing the lock is acquired; once
    [commitResult] has succeeded and until the record expires,
    [atomicCheckAndLock] answers [exists] with the fingerprint and the
    time of the commit, whatever fingerprint it is given, and a further
    [commitResult] is rejected with a store error and writes nothing. *)
Theorem RedisAdapter_committed_record_is_read_back (key fp : jsstring) (r : value)
        (ttl retention now now' : Z) (db : gmap jsstring RedisAdapter.Stored)
        (s2 : RedisAdapter.Redis) :
  db !! key = None ->
  RedisAdapter.commitResult key fp r retention now'
    (snd (RedisAdapter.atomicCheckAndLock key fp ttl now
            {| RedisAdapter.db := db; RedisAdapter.unreachable := None |}))
  = (Return tt, s2) ->
  fst (RedisAdapter.atomicCheckAndLock key fp ttl now
         {| RedisAdapter.db := db; RedisAdapter.unreachable := None |})
  = Return Acquired
  /\ (forall fp2 ttl2 now2,
         exists result,
           RedisAdapter.atomicCheckAndLock key fp2 ttl2 now2 s2
           = (Return (Exists fp result now'), s2))
  /\ (forall fp2 r2 retention2 now2,
         RedisAdapter.commitResult key fp2 r2 retention2 now2 s2
         = (Throw (RedisAdapter.storeError
                     (js "Failed to commit result: lock expired or already committed")),
            s2)).
Proof.
  intros Hnone.
  unfold RedisAdapter.atomicCheckAndLock, RedisAdapter.commitResult,
    RedisAdapter.CHECK_AND_LOCK, RedisAdapter.COMMIT_RESULT.
  cbn [RedisAdapter.db RedisAdapter.unreachable].
  rewrite Hnone. cbn [fst snd RedisAdapter.db RedisAdapter.unreachable].
  rewrite lookup_insert_eq, bool_decide_true by reflexivity.
  cbn [fst snd Z.eqb RedisAdapter.db RedisAdapter.unreachable].
  intros [= <-]. cbn [RedisAdapter.db RedisAdapter.unreachable].
  rewrite !lookup_insert_eq.
  rewrite bool_decide_false by (vm_compute; discriminate).
  rewrite bool_decide_false by (vm_compute; intros [=]).
  split_and!; [reflexivity|intros; eexists; reflexivity|reflexivity].
Qed.

(** Witness of X21: a key of the empty server. *)
Lemma RedisAdapter_committed_record_is_read_back_witness :
  fst (RedisAdapter.atomicCheckAndLock (js "k1") (js "fp") 30000 1700000000000
         {| RedisAdapter.db := ∅; RedisAdapter.unreachable := None |})
  = Return Acquired
  /\ (forall fp2 ttl2 now2,
         exists result,
           RedisAdapter.atomicCheckAndLock (js "k1") fp2 ttl2 now2
             {| RedisAdapter.db :=
                  {[ js "k1" := Scenario.committedTable (js "fp") Scenario.success
                                  1700000000005 ]};
                RedisAdapter.unreachable := None |}
           = (Return (Exists (js "fp") result 1700000000005),
              {| RedisAdapter.db :=
                   {[ js "k1" := Scenario.committedTable (js "fp") Scenario.success
                                   1700000000005 ]};
                 RedisAdapter.unreachable := None |}))
  /\ (forall fp2 r2 retention2 now2,
         RedisAdapter.commitResult (js "k1") fp2 r2 retention2 now2
           {| RedisAdapter.db :=
                {[ js "k1" := Scenario.committedTable (js "fp") Scenario.success
                                1700000000005 ]};
              RedisAdapter.unreachable := None |}
         = (Throw (RedisAdapter.storeError
                     (js "Failed to commit result: lock expired or already committed")),
            {| RedisAdapter.db :=
                 {[ js "k1" := Scenario.committedTable (js "fp") Scenario.success
                                 1700000000005 ]};
               RedisAdapter.unreachable := None |})).
Proof.
  apply (RedisAdapter_committed_record_is_read_back (js "k1") (js "fp")
           Scenario.success 30000 86400000 1700000000000 1700000000005 ∅).
  - apply lookup_empty.
  - unfold RedisAdapter.atomicCheckAndLock, RedisAdapter.commitResult,
      RedisAdapter.CHECK_AND_LOCK, RedisAdapter.COMMIT_RESULT.
    cbn [RedisAdapter.db RedisAdapter.unreachable].
    rewrite lookup_empty. cbn [fst snd RedisAdapter.db RedisAdapter.unreachable].
    rewrite lookup_insert_eq, bool_decide_true by reflexivity.
    cbn [fst snd Z.eqb]. rewrite insert_insert_eq, insert_empty. reflexivity.
Defined.

(** X22.  In both stores [commitResult] succeeds only on a key that holds
    a processing record, and when it fails the store is left as it was
    (over Redis, on a server that can be reached).  Over [MemoryStore] it
    succeeds on every such key. *)
Theorem commitResult_requires_the_lock (key fp : jsstring) (r : value)
        (retention now : Z) :
  (forall s : gmap jsstring MemoryStore.Entry,
      (fst (MemoryStore.commitResult key fp r retention now s) = Return tt
       <-> exists acquiredAt ttl, s !! key = Some (MemoryStore.Processing acquiredAt ttl))
      /\ (fst (MemoryStore.commitResult key fp r retention now s) <> Return tt ->
          snd (MemoryStore.commitResult key fp r retention now s) = s))
  /\ (forall db : gmap jsstring RedisAdapter.Stored,
         (fst (RedisAdapter.commitResult key fp r retention now
                 {| RedisAdapter.db := db; RedisAdapter.unreachable := None |})
          = Return tt
          -> exists f res createdAt acquiredAt,
               db !! key = Some (RedisAdapter.Table (Some (js "processing")) f res
                                   createdAt acquiredAt))
         /\ (fst (RedisAdapter.commitResult key fp r retention now
                    {| RedisAdapter.db := db; RedisAdapter.unreachable := None |})
             <> Return tt ->
             snd (RedisAdapter.commitResult key fp r retention now
                    {| RedisAdapter.db := db; RedisAdapter.unreachable := None |})
             = {| RedisAdapter.db := db; RedisAdapter.unreachable := None |})).
Proof.
  split.
  - intros s. unfold MemoryStore.commitResult.
    destruct (s !! key) as [[acquiredAt ttl|? ? ?]|]; cbn [fst snd].
    + split; [|intros H; destruct H; reflexivity].
      split; [intros _; eauto|reflexivity].
    + split; [|reflexivity].
      split; [intros [=]|intros (? & ? & [=])].
    + split; [|reflexivity].
      split; [intros [=]|intros (? & ? & [=])].
  - intros db. unfold RedisAdapter.commitResult, RedisAdapter.COMMIT_RESULT.
    cbn [RedisAdapter.db RedisAdapter.unreachable].
    destruct (db !! key) as [[raw|status f res createdAt acquiredAt]|];
      cbn [fst snd Z.eqb].
    + split; [intros [=]|reflexivity].
    + destruct (bool_decide_reflect (status = Some (js "processing"))) as [->|Hne];
        cbn [fst snd Z.eqb].
      * split; [intros _; eauto 6|intros H; destruct H; reflexivity].
      * split; [intros [=]|reflexivity].
    + split; [intros [=]|reflexivity].
Qed.
